(** * A shallow embedding of the BASIC-like tokenizer (tokens.py, tokenizer.py)

    Strings are Rocq strings; a character is a code point below 256, so the
    development covers sources written over that range.  On it the predicates
    of Python's [str] and the whitespace class of the [re] module are written
    out by code point.  Python integers are unbounded: the cursor, which
    starts at zero and is only ever incremented, is a [nat]; the result of
    [str.find] and the bounds of a slice, which can be negative, are in [Z]. *)

From Stdlib Require Import String Ascii List ZArith NArith Bool Arith Lia.
Import ListNotations.
Open Scope string_scope.

(** ** Python built-ins used by the tokenizer *)

Module Py.

Definition NUL : ascii := "000"%char.
Definition TAB : ascii := "009"%char.
Definition LF : ascii := "010"%char.
Definition CR : ascii := "013"%char.
Definition DQUOTE : ascii := Eval cbv in ascii_of_nat 34.

Definition between (lo hi n : N) : bool := ((lo <=? n) && (n <=? hi))%N.
Definition one_of (l : list N) (n : N) : bool := existsb (N.eqb n) l.

(** [str.isdigit]: the decimal digits and the superscript digits. *)
Definition isdigit (c : ascii) : bool :=
  let n := N_of_ascii c in
  between 48 57 n || one_of [178; 179; 185]%N n.

(** [str.isalpha]: the code points of a letter category. *)
Definition isalpha (c : ascii) : bool :=
  let n := N_of_ascii c in
  between 65 90 n || between 97 122 n || one_of [170; 181; 186]%N n
  || between 192 214 n || between 216 246 n || between 248 255 n.

(** [str.isalnum]: letters, digits and the other numeric code points
    (the vulgar fractions). *)
Definition isalnum (c : ascii) : bool :=
  isalpha c || isdigit c || between 188 190 (N_of_ascii c).

(** The class backslash-s of [re] on a [str] pattern. *)
Definition isspace (c : ascii) : bool :=
  let n := N_of_ascii c in
  between 9 13 n || between 28 32 n || one_of [133; 160]%N n.

(** [len(s)] *)
Definition len (s : string) : nat := String.length s.

(** [s[i]] for [0 <= i]; [None] stands for [IndexError]. *)
Definition getitem (s : string) (i : nat) : option ascii := String.get i s.

(** A one-character [str]. *)
Definition str1 (c : ascii) : string := String c EmptyString.

(** How a slice bound is brought into [0 .. len]: a negative bound counts
    from the end. *)
Definition clamp (n i : Z) : Z :=
  if (i <? 0)%Z then Z.max 0 (i + n) else Z.min i n.

(** [s[lo:hi]] *)
Definition slice (s : string) (lo hi : Z) : string :=
  let n := Z.of_nat (len s) in
  let lo' := clamp n lo in
  let hi' := clamp n hi in
  substring (Z.to_nat lo') (Z.to_nat (hi' - lo')) s.

(** [s.find(c, start)], scanning [s] with [i] the index of its head. *)
Fixpoint find_at (c : ascii) (i : nat) (s : string) (start : nat) : Z :=
  match s with
  | EmptyString => (-1)%Z
  | String x s' =>
      match start with
      | S k => find_at c (S i) s' k
      | O => if Ascii.eqb x c then Z.of_nat i else find_at c (S i) s' 0
      end
  end.

Definition find (s : string) (c : ascii) (start : nat) : Z :=
  find_at c 0 s start.

(** *** [re.sub] *)

(** A match object: group 0 is the matched text, group 1 the text of the
    first parenthesis when it took part in the match. *)
Record Match := mkMatch { group0 : string; group1 : option string }.

(** A compiled pattern, as the function that matches it at the head of the
    rest of the text. *)
Definition Pattern := string -> option Match.

(** [re.sub]: the text is scanned from the left; where the pattern matches,
    the match is replaced and the scan resumes behind it; elsewhere the
    character is copied.  [skip] counts the characters of a match still to
    be passed over.  Both patterns of the tokenizer match one character at
    least. *)
Fixpoint sub_from (pattern : Pattern) (repl : Match -> string)
         (skip : nat) (s : string) : string :=
  match s with
  | EmptyString => EmptyString
  | String c s' =>
      match skip with
      | S k => sub_from pattern repl k s'
      | O =>
          match pattern s with
          | Some m =>
              match len (group0 m) with
              | S k => repl m ++ sub_from pattern repl k s'
              | O => repl m ++ String c (sub_from pattern repl 0 s')
              end
          | None => String c (sub_from pattern repl 0 s')
          end
      end
  end.

Definition re_sub (pattern : Pattern) (repl : Match -> string) (s : string) : string :=
  sub_from pattern repl 0 s.

(** Truth value of an optional group. *)
Definition truthy (g : option string) : bool :=
  match g with
  | Some (String _ _) => true
  | _ => false
  end.

(** Index of the first [c] in [s]. *)
Fixpoint index_of (c : ascii) (s : string) : option nat :=
  match s with
  | EmptyString => None
  | String x s' =>
      if Ascii.eqb x c then Some 0
      else match index_of c s' with
           | Some j => Some (S j)
           | None => None
           end
  end.

(** Length of the longest prefix of [s] whose characters satisfy [p]. *)
Fixpoint span_len (p : ascii -> bool) (s : string) : nat :=
  match s with
  | String c s' => if p c then S (span_len p s') else 0
  | EmptyString => 0
  end.

End Py.

(** ** tokens.py *)

Module Tokens.

Inductive TokenType : Set :=
| EOF | NEWLINE | NUMBER | IDENT | STRING
| LABEL | GOTO | PRINT | INPUT | LET | IF | THEN | ENDIF | WHILE | REPEAT | ENDWHILE
| EQ | PLUS | MINUS | STAR | SLASH | EQEQ | NOTEQ | LT | LTEQ | GT | GTEQ.

(** [kind.value] *)
Definition value (kind : TokenType) : Z :=
  match kind with
  | EOF => -1 | NEWLINE => 0 | NUMBER => 1 | IDENT => 2 | STRING => 3
  | LABEL => 101 | GOTO => 102 | PRINT => 103 | INPUT => 104 | LET => 105
  | IF => 106 | THEN => 107 | ENDIF => 108 | WHILE => 109 | REPEAT => 110
  | ENDWHILE => 111
  | EQ => 201 | PLUS => 202 | MINUS => 203 | STAR => 204 | SLASH => 205
  | EQEQ => 206 | NOTEQ => 207 | LT => 208 | LTEQ => 209 | GT => 210
  | GTEQ => 211
  end%Z.

(** [kind.name] *)
Definition name (kind : TokenType) : string :=
  match kind with
  | EOF => "EOF" | NEWLINE => "NEWLINE" | NUMBER => "NUMBER" | IDENT => "IDENT"
  | STRING => "STRING"
  | LABEL => "LABEL" | GOTO => "GOTO" | PRINT => "PRINT" | INPUT => "INPUT"
  | LET => "LET" | IF => "IF" | THEN => "THEN" | ENDIF => "ENDIF"
  | WHILE => "WHILE" | REPEAT => "REPEAT" | ENDWHILE => "ENDWHILE"
  | EQ => "EQ" | PLUS => "PLUS" | MINUS => "MINUS" | STAR => "STAR"
  | SLASH => "SLASH" | EQEQ => "EQEQ" | NOTEQ => "NOTEQ" | LT => "LT"
  | LTEQ => "LTEQ" | GT => "GT" | GTEQ => "GTEQ"
  end.

(** The members in definition order, as iterating over the enum gives them. *)
Definition members : list TokenType :=
  [EOF; NEWLINE; NUMBER; IDENT; STRING;
   LABEL; GOTO; PRINT; INPUT; LET; IF; THEN; ENDIF; WHILE; REPEAT; ENDWHILE;
   EQ; PLUS; MINUS; STAR; SLASH; EQEQ; NOTEQ; LT; LTEQ; GT; GTEQ].

(** The operator table, a dict with eleven distinct keys. *)
Definition TOKEN_TYPES : list (string * TokenType) :=
  [("+", PLUS); ("-", MINUS); ("*", STAR); ("/", SLASH); ("<", LT); (">", GT);
   ("<=", LTEQ); (">=", GTEQ); ("=", EQ); ("==", EQEQ); ("!=", NOTEQ)].

(** [d[key]]; [None] stands for [KeyError]. *)
Fixpoint dict_get (d : list (string * TokenType)) (key : string) : option TokenType :=
  match d with
  | [] => None
  | (k, v) :: d' => if String.eqb k key then Some v else dict_get d' key
  end.

End Tokens.

(** ** tokenizer.py *)

Module Tokenizer.
Import Py Tokens.

Record Token := mkToken { text : string; kind : TokenType }.

(** [Token.check_if_keyword]: the first member whose name is the text and
    whose value lies in the keyword band. *)
Definition check_if_keyword (token_text : string) : option TokenType :=
  List.find
    (fun kind => String.eqb (name kind) token_text
                 && (100 <=? value kind)%Z && (value kind <? 200)%Z)
    members.

(** The fields of a [TokenGenerator]. *)
Record TokenGenerator := mkGen {
  _source : string;
  _cur_pos : nat;
  _next_char : string;
  _at_end : bool
}.

Definition set_cur_pos (n : nat) (self : TokenGenerator) : TokenGenerator :=
  mkGen (_source self) n (_next_char self) (_at_end self).
Definition set_next_char (c : string) (self : TokenGenerator) : TokenGenerator :=
  mkGen (_source self) (_cur_pos self) c (_at_end self).
Definition set_at_end (b : bool) (self : TokenGenerator) : TokenGenerator :=
  mkGen (_source self) (_cur_pos self) (_next_char self) b.

(** *** Methods: state passing with exceptions

    A method maps the object to a result and the object as the call leaves
    it; what a method assigned before it raised stays assigned. *)

Inductive exn : Set :=
| StopIteration
| ValueError (msg : string).

Inductive result (A : Type) : Type :=
| Ok (a : A)
| Raise (e : exn).
Arguments Ok {A} a.
Arguments Raise {A} e.

Definition M (A : Type) : Type := TokenGenerator -> result A * TokenGenerator.

Definition ret {A} (a : A) : M A := fun self => (Ok a, self).
Definition raise {A} (e : exn) : M A := fun self => (Raise e, self).
Definition bind {A B} (m : M A) (k : A -> M B) : M B :=
  fun self =>
    match m self with
    | (Ok a, self') => k a self'
    | (Raise e, self') => (Raise e, self')
    end.
Definition gets {A} (f : TokenGenerator -> A) : M A := fun self => (Ok (f self), self).
Definition modify (f : TokenGenerator -> TokenGenerator) : M unit :=
  fun self => (Ok tt, f self).

Notation "x <- m ;; k" := (bind m (fun x => k))
  (at level 61, m at next level, right associativity).
Notation "m ;; k" := (bind m (fun _ => k))
  (at level 61, right associativity).

(** The two messages of [ValueError]. *)
Definition MalformedNumber : exn := ValueError "Illegal character in number!".
Definition UnrecognizedCharacter (cur_char : ascii) : exn :=
  ValueError ("Lexing Error! Character '" ++ str1 cur_char ++ "' not recognized").

(** [_peek]: the character after the cursor, or the null character. *)
Definition _peek (self : TokenGenerator) : ascii :=
  match getitem (_source self) (_cur_pos self + 1) with
  | Some c => c
  | None => NUL
  end.

(** [self._cur_pos += n] *)
Definition advance (n : nat) : M unit :=
  modify (fun self => set_cur_pos (_cur_pos self + n) self).

(** [while p(self._peek()): self._cur_pos += 1], unrolled [fuel] times. *)
Fixpoint while_peek_fuel (p : ascii -> bool) (fuel : nat) (self : TokenGenerator)
  : TokenGenerator :=
  match fuel with
  | O => self
  | S fuel' =>
      if p (_peek self)
      then while_peek_fuel p fuel' (set_cur_pos (_cur_pos self + 1) self)
      else self
  end.

(** The loop with as many rounds as the source has characters: the null
    character ends it, so it never needs more (lemma [while_peek_exit]). *)
Definition while_peek (p : ascii -> bool) : M unit :=
  modify (fun self => while_peek_fuel p (len (_source self)) self).

(** *** Construction *)

(** Horizontal whitespace: whitespace other than the two line characters. *)
Definition is_hspace (c : ascii) : bool :=
  isspace c && negb (Ascii.eqb c CR) && negb (Ascii.eqb c LF).

(** The pattern of [_remove_whitespace]: either a double quote, characters
    other than a double quote and a double quote; or, as group 1, a run of
    horizontal whitespace. *)
Definition whitespace_pattern : Pattern := fun s =>
  match s with
  | EmptyString => None
  | String c rest =>
      match (if Ascii.eqb c DQUOTE then index_of DQUOTE rest else None) with
      | Some j => Some (mkMatch (substring 0 (j + 2) s) None)
      | None =>
          if is_hspace c
          then let run := substring 0 (span_len is_hspace s) s in
               Some (mkMatch run (Some run))
          else None
      end
  end.

Definition _remove_whitespace (input : string) : string :=
  re_sub whitespace_pattern
         (fun x => if truthy (group1 x) then EmptyString else group0 x)
         input.

(** What the dot-star of the comment pattern can span: the text up to the
    next line feed. *)
Fixpoint line_of (s : string) : string :=
  match s with
  | EmptyString => EmptyString
  | String c s' => if Ascii.eqb c LF then EmptyString else String c (line_of s')
  end.

(** Index of the last star-slash in [s]. *)
Fixpoint last_close (s : string) : option nat :=
  match s with
  | EmptyString => None
  | String c s' =>
      match last_close s' with
      | Some j => Some (S j)
      | None => if prefix "*/" s then Some 0 else None
      end
  end.

(** The pattern of [_remove_comments]: slash-star, then as many characters
    of the line as still leave a star-slash to close the match. *)
Definition comment_pattern : Pattern := fun s =>
  match s with
  | String c1 (String c2 rest) =>
      if Ascii.eqb c1 "/" && Ascii.eqb c2 "*" then
        match last_close (line_of rest) with
        | Some j => Some (mkMatch (substring 0 (2 + j + 2) s) None)
        | None => None
        end
      else None
  | _ => None
  end.

Definition _remove_comments (input : string) : string :=
  re_sub comment_pattern (fun _ => EmptyString) input.

Definition __init__ (input : string) : TokenGenerator :=
  let input := _remove_whitespace input in
  mkGen (_remove_comments input) 0 EmptyString false.

(** *** The lexing strategies *)

Definition _get_number (cur_char : ascii) : M (option Token) :=
  if isdigit cur_char then
    start_pos <- gets _cur_pos ;;
    while_peek isdigit ;;
    dot <- gets _peek ;;
    (if Ascii.eqb dot "." then
       advance 1 ;;
       after <- gets _peek ;;
       if negb (isdigit after) then raise MalformedNumber
       else while_peek isdigit
     else ret tt) ;;
    self <- gets id ;;
    let tok_text :=
      slice (_source self) (Z.of_nat start_pos) (Z.of_nat (_cur_pos self + 1)) in
    ret (Some (mkToken tok_text NUMBER))
  else ret None.

Definition _get_ident_or_keyword (cur_char : ascii) : M (option Token) :=
  if isalpha cur_char then
    start_pos <- gets _cur_pos ;;
    while_peek isalnum ;;
    self <- gets id ;;
    let tok_text :=
      slice (_source self) (Z.of_nat start_pos) (Z.of_nat (_cur_pos self + 1)) in
    match check_if_keyword tok_text with
    | Some keyword => ret (Some (mkToken tok_text keyword))
    | None => ret (Some (mkToken tok_text IDENT))
    end
  else ret None.

Definition _get_string (cur_char : ascii) : M (option Token) :=
  if Ascii.eqb cur_char DQUOTE then
    self <- gets id ;;
    let string_end := find (_source self) DQUOTE (_cur_pos self + 1) in
    let string_token :=
      slice (_source self) (Z.of_nat (_cur_pos self + 1)) string_end in
    advance (len string_token + 1) ;;
    ret (Some (mkToken string_token STRING))
  else ret None.

Definition _get_EOF (cur_char : ascii) : M (option Token) :=
  if Ascii.eqb cur_char NUL then ret (Some (mkToken (str1 cur_char) EOF))
  else ret None.

(** [cur_char in [LF, CR LF]] compares the one-character text with both
    members of the list. *)
Definition _get_newlines (cur_char : ascii) : M (option Token) :=
  if existsb (String.eqb (str1 cur_char)) [str1 LF; String CR (str1 LF)]
  then ret (Some (mkToken (str1 cur_char) NEWLINE))
  else ret None.

Definition _is_operator (cur_char : ascii) : M (option Token) :=
  lookahead <- gets _peek ;;
  match dict_get TOKEN_TYPES (str1 cur_char ++ str1 lookahead) with
  | Some token_type =>
      second_char <- gets _peek ;;
      advance 1 ;;
      ret (Some (mkToken (str1 cur_char ++ str1 second_char) token_type))
  | None =>
      match dict_get TOKEN_TYPES (str1 cur_char) with
      | Some token_type => ret (Some (mkToken (str1 cur_char) token_type))
      | None => ret None
      end
  end.

Definition lexing_strats : list (ascii -> M (option Token)) :=
  [_get_number; _get_ident_or_keyword; _get_EOF; _get_newlines; _get_string;
   _is_operator].

(** The loop over the strategies: the first token wins (a [Token] object is
    always true); when the list is through, the character is rejected. *)
Fixpoint first_token (strats : list (ascii -> M (option Token))) (cur_char : ascii)
  : M Token :=
  match strats with
  | [] => raise (UnrecognizedCharacter cur_char)
  | strat :: strats' =>
      r <- strat cur_char ;;
      match r with
      | Some token => ret token
      | None => first_token strats' cur_char
      end
  end.

Definition _get_next_token (cur_char : ascii) : M Token :=
  first_token lexing_strats cur_char.

Definition __next__ : M Token :=
  at_end <- gets _at_end ;;
  if at_end : bool then raise StopIteration
  else
    next_char <- gets _next_char ;;
    (if String.eqb next_char (str1 NUL) then modify (set_at_end true) else ret tt) ;;
    self <- gets id ;;
    let cur_char :=
      match getitem (_source self) (_cur_pos self) with
      | Some c => c
      | None => NUL
      end in
    token <- _get_next_token cur_char ;;
    lookahead <- gets _peek ;;
    modify (set_next_char (str1 lookahead)) ;;
    advance 1 ;;
    ret token.

(** *** Iterating the generator *)

(** How [list(TokenGenerator(input))] ends: the iterator is exhausted, or
    a call raised. *)
Inductive ending : Set :=
| Exhausted
| Failed (e : exn)
| OutOfFuel.

(** The tokens [__next__] returns until it raises, in at most [fuel] calls. *)
Fixpoint collect (fuel : nat) (self : TokenGenerator) : list Token * ending :=
  match fuel with
  | O => ([], OutOfFuel)
  | S fuel' =>
      match __next__ self with
      | (Ok token, self') =>
          let (tokens, e) := collect fuel' self' in (token :: tokens, e)
      | (Raise StopIteration, _) => ([], Exhausted)
      | (Raise e, _) => ([], Failed e)
      end
  end.

(** Calls still possible before [StopIteration], at most. *)
Definition calls_left (self : TokenGenerator) : nat :=
  if _at_end self then 0
  else if String.eqb (_next_char self) (str1 NUL) then 1
  else 2 + (len (_source self) - _cur_pos self).

(** [list(TokenGenerator(input))]; the fuel is never used up (lemma
    [tokenize_ends]). *)
Definition tokenize (input : string) : list Token * ending :=
  let self := __init__ input in
  collect (S (calls_left self)) self.

(** The state after [n] successful calls. *)
Inductive reaches : TokenGenerator -> TokenGenerator -> Prop :=
| reaches_refl self : reaches self self
| reaches_step self token self' self'' :
    __next__ self = (Ok token, self') ->
    reaches self' self'' ->
    reaches self self''.

End Tokenizer.

Import Py Tokens Tokenizer.

(** ** Vocabulary of the statements *)

(** The character a lookahead sees at the head of [s]: the null character
    when nothing is left. *)
Definition first_char (s : string) : ascii :=
  match s with
  | String c _ => c
  | EmptyString => NUL
  end.

Fixpoint all_chars (p : ascii -> bool) (s : string) : bool :=
  match s with
  | EmptyString => true
  | String c s' => p c && all_chars p s'
  end.

(** [has sub s]: [sub] occurs somewhere in [s]. *)
Fixpoint has (sub s : string) : bool :=
  prefix sub s ||
  match s with
  | EmptyString => false
  | String _ s' => has sub s'
  end.

(** Number of occurrences of the character [c] in [s]. *)
Fixpoint occurrences (c : ascii) (s : string) : nat :=
  match s with
  | EmptyString => 0
  | String x s' => (if Ascii.eqb x c then 1 else 0) + occurrences c s'
  end.

(** The keyword band of the enum values. *)
Definition is_keyword (kind : TokenType) : bool :=
  (100 <=? value kind)%Z && (value kind <? 200)%Z.

(** The kind the identifier rule gives a lexeme. *)
Definition ident_kind (lexeme : string) : TokenType :=
  match check_if_keyword lexeme with
  | Some keyword => keyword
  | None => IDENT
  end.

(** [s] without its first [n] characters. *)
Fixpoint drop (n : nat) (s : string) : string :=
  match n, s with
  | S n', String _ s' => drop n' s'
  | _, _ => s
  end.

(** The character [__next__] dispatches on. *)
Definition cur_char_of (self : TokenGenerator) : ascii :=
  match getitem (_source self) (_cur_pos self) with
  | Some c => c
  | None => NUL
  end.

(** The object once [__next__] has looked at [_next_char]. *)
Definition mark_end (self : TokenGenerator) : TokenGenerator :=
  if String.eqb (_next_char self) (str1 NUL) then set_at_end true self else self.

(** The object after a token was found: lookahead recorded, cursor moved. *)
Definition finish (self : TokenGenerator) : TokenGenerator :=
  set_cur_pos (_cur_pos self + 1) (set_next_char (str1 (_peek self)) self).

(** [self'] differs from [self] by a cursor that moved forward, if at all. *)
Definition moved_on (self self' : TokenGenerator) : Prop :=
  _source self' = _source self /\ _next_char self' = _next_char self /\
  _at_end self' = _at_end self /\ _cur_pos self <= _cur_pos self'.

(** While the source has characters left at the cursor, the end flag is
    down and the recorded lookahead is not the null character. *)
Definition end_only_at_end (self : TokenGenerator) : Prop :=
  (_at_end self = true -> len (_source self) <= _cur_pos self) /\
  (_next_char self = str1 NUL -> len (_source self) <= _cur_pos self).

(** A method that, however it ends, has only moved the cursor forward. *)
Definition only_moves {A} (m : M A) : Prop :=
  forall self r self', m self = (r, self') -> moved_on self self'.

(** What every call of a method ends with. *)
Definition post {A} (m : M A) (Q : result A -> Prop) : Prop :=
  forall self r self', m self = (r, self') -> Q r.

Definition no_stop {A} (r : result A) : Prop := r <> Raise StopIteration.

(** What a strategy may end with on a character of the source: no token, a
    token that is not the EOF token, or an exception other than
    [StopIteration]. *)
Definition plain_token (r : result (option Token)) : Prop :=
  match r with
  | Ok (Some token) => kind token <> EOF
  | Ok None => True
  | Raise e => e <> StopIteration
  end.

Definition plain_result (r : result Token) : Prop :=
  match r with
  | Ok token => kind token <> EOF
  | Raise e => e <> StopIteration
  end.

(** The recorded lookahead tells the end of the source exactly when the
    cursor is there, and the end flag is still down. *)
Definition in_step (self : TokenGenerator) : Prop :=
  _at_end self = false /\
  (_next_char self = str1 NUL <-> cur_char_of self = NUL).

(** The characters of [s] that satisfy [p], in their order. *)
Fixpoint keep (p : ascii -> bool) (s : string) : string :=
  match s with
  | EmptyString => EmptyString
  | String c s' => if p c then String c (keep p s') else keep p s'
  end.

(** The text without its horizontal whitespace. *)
Definition squeeze (s : string) : string := keep (fun c => negb (is_hspace c)) s.

(** [s] without its last character. *)
Fixpoint but_last (s : string) : string :=
  match s with
  | EmptyString => EmptyString
  | String c EmptyString => EmptyString
  | String c s' => String c (but_last s')
  end.

(** The texts of the tokens, one behind the other. *)
Fixpoint texts (tokens : list Token) : string :=
  match tokens with
  | [] => EmptyString
  | token :: tokens' => text token ++ texts tokens'
  end.

(** One of the lookahead loops, run on the object. *)
Definition scan (p : ascii -> bool) (self : TokenGenerator) : TokenGenerator :=
  while_peek_fuel p (len (_source self)) self.

Definition is_none {A} (o : option A) : bool :=
  match o with
  | None => true
  | Some _ => false
  end.

(** No strategy takes the character [c] with the lookahead [d]. *)
Definition no_rule (c d : ascii) : bool :=
  negb (isdigit c) && negb (isalpha c) && negb (Ascii.eqb c NUL)
  && negb (Ascii.eqb c LF) && negb (Ascii.eqb c DQUOTE)
  && is_none (dict_get TOKEN_TYPES (str1 c ++ str1 d))
  && is_none (dict_get TOKEN_TYPES (str1 c)).

(** The cursor stands on a character that no strategy takes. *)
Definition stuck (self : TokenGenerator) : Prop :=
  no_rule (cur_char_of self) (_peek self) = true.

(** The object after [n] further calls of [__next__], whatever they gave. *)
Fixpoint after_calls (n : nat) (self : TokenGenerator) : TokenGenerator :=
  match n with
  | O => self
  | S n' => after_calls n' (snd (__next__ self))
  end.

(** The token [token] found from [self], with [mid] the object as the
    strategy leaves it: its text is the source from the cursor of [self] to
    the cursor of [mid], which is still on a character of the source. *)
Definition lexeme_of (self : TokenGenerator) (token : Token) (mid : TokenGenerator)
  : Prop :=
  _source mid = _source self /\
  _cur_pos self <= _cur_pos mid /\
  _cur_pos mid < len (_source self) /\
  text token
  = substring (_cur_pos self) (_cur_pos mid + 1 - _cur_pos self) (_source self).

(** The six strategies of [_get_next_token], in the order of the list. *)
Inductive rule : Set :=
| NumberRule | WordRule | EndRule | LineRule | QuoteRule | OperatorRule.

(** The strategy that a character is left to: the first one in the list
    that tests the character and takes it. *)
Definition rule_for (c : ascii) : rule :=
  if isdigit c then NumberRule
  else if isalpha c then WordRule
  else if Ascii.eqb c NUL then EndRule
  else if existsb (String.eqb (str1 c)) [str1 LF; String CR (str1 LF)] then LineRule
  else if Ascii.eqb c DQUOTE then QuoteRule
  else OperatorRule.

(** The strategy whose tokens have the kind. *)
Definition rule_of_kind (kind : TokenType) : rule :=
  match kind with
  | NUMBER => NumberRule
  | IDENT | LABEL | GOTO | PRINT | INPUT | LET | IF | THEN | ENDIF | WHILE
  | REPEAT | ENDWHILE => WordRule
  | EOF => EndRule
  | NEWLINE => LineRule
  | STRING => QuoteRule
  | EQ | PLUS | MINUS | STAR | SLASH | EQEQ | NOTEQ | LT | LTEQ | GT | GTEQ =>
      OperatorRule
  end.

(** The recorded lookahead, where it tells the end, tells it of the
    character at the cursor; the end flag is down. *)
Definition in_order (self : TokenGenerator) : Prop :=
  _at_end self = false /\
  (_next_char self = str1 NUL -> cur_char_of self = NUL).

(** A character that ends every lexeme that has not reached it: no letter,
    no digit, not the dot of a number and not the second character of an
    operator. *)
Definition hard (x : ascii) : bool :=
  negb (isalnum x) && negb (Ascii.eqb x ".") && negb (Ascii.eqb x "=").

(** The token of the end of input: its text is the null character. *)
Definition EOF_token : Token := mkToken (str1 NUL) EOF.

Definition newline : string := str1 LF.
Definition dquote : string := str1 DQUOTE.

(** ** Strings *)

Section Strings.

Lemma str_length_app (a b : string) :
  String.length (a ++ b) = String.length a + String.length b.
Proof. induction a; simpl; congruence. Qed.

Lemma str_app_assoc (a b c : string) : (a ++ b) ++ c = a ++ b ++ c.
Proof. induction a; simpl; congruence. Qed.

Lemma get_app_r (a b : string) (i : nat) :
  String.get (String.length a + i) (a ++ b) = String.get i b.
Proof. induction a; simpl; auto. Qed.

Lemma get_first_char (a b : string) :
  match String.get (String.length a) (a ++ b) with
  | Some c => c
  | None => NUL
  end = first_char b.
Proof.
  rewrite <- (Nat.add_0_r (String.length a)), get_app_r.
  destruct b; reflexivity.
Qed.

Lemma get_beyond (s : string) (i : nat) :
  String.length s <= i -> String.get i s = None.
Proof.
  revert i; induction s as [|c s IH]; intros i H; simpl in *; auto.
  destruct i; [lia|]. apply IH; lia.
Qed.

Lemma get_within (s : string) (i : nat) :
  i < String.length s -> exists c, String.get i s = Some c.
Proof.
  revert i; induction s as [|c s IH]; intros i H; simpl in *; [lia|].
  destruct i; [eauto|]. apply IH; lia.
Qed.

Lemma substring_skip (a b : string) (n : nat) :
  substring (String.length a) n (a ++ b) = substring 0 n b.
Proof. induction a; simpl; auto. Qed.

Lemma substring_take (a b : string) :
  substring 0 (String.length a) (a ++ b) = a.
Proof.
  induction a; simpl; [destruct b; reflexivity | congruence].
Qed.

(** A slice with bounds inside the string is the text between them. *)
Lemma slice_span (a b c : string) :
  slice (a ++ b ++ c) (Z.of_nat (len a)) (Z.of_nat (len a + len b)) = b.
Proof.
  unfold slice, clamp, len.
  rewrite !str_length_app.
  destruct (Z.ltb_spec (Z.of_nat (String.length a)) 0); [lia|].
  destruct (Z.ltb_spec (Z.of_nat (String.length a + String.length b)) 0); [lia|].
  rewrite !Z.min_l by lia.
  replace (Z.to_nat (Z.of_nat (String.length a + String.length b)
                     - Z.of_nat (String.length a)))
    with (String.length b) by lia.
  rewrite Nat2Z.id, substring_skip. apply substring_take.
Qed.

End Strings.

(** Both sides of an equation between concatenations, brought to the same
    right-nested form. *)
Ltac str_normal :=
  repeat (rewrite ?str_app_assoc; simpl); reflexivity.

(** ** The lookahead loops *)

Section Loops.

Variable p : ascii -> bool.

Lemma set_cur_pos_same (self : TokenGenerator) :
  set_cur_pos (_cur_pos self) self = self.
Proof. destruct self; reflexivity. Qed.

Lemma set_cur_pos_twice (n m : nat) (self : TokenGenerator) :
  set_cur_pos n (set_cur_pos m self) = set_cur_pos n self.
Proof. reflexivity. Qed.

(** The lookahead of a cursor that stands on the last character of [a]. *)
Lemma peek_first_char (self : TokenGenerator) (a b : string) :
  _source self = a ++ b -> _cur_pos self + 1 = len a ->
  _peek self = first_char b.
Proof.
  intros Hs Hc. unfold _peek, getitem. rewrite Hs, Hc. apply get_first_char.
Qed.

(** Whatever the fuel, the loop only moves the cursor, and forward. *)
Lemma while_peek_fuel_moved (fuel : nat) (self : TokenGenerator) :
  moved_on self (while_peek_fuel p fuel self).
Proof.
  revert self; induction fuel as [|fuel IH]; intros self; simpl.
  - unfold moved_on; auto.
  - destruct (p (_peek self)).
    + destruct (IH (set_cur_pos (_cur_pos self + 1) self)) as (H1 & H2 & H3 & H4).
      unfold moved_on; simpl in *. repeat split; auto; lia.
    + unfold moved_on; auto.
Qed.

(** Over a run of characters that satisfy [p], followed by one that does
    not, the loop moves the cursor to the end of the run. *)
Lemma while_peek_fuel_run (run : string) :
  forall (fuel : nat) (self : TokenGenerator) (a rest : string),
    _source self = a ++ run ++ rest ->
    _cur_pos self + 1 = len a ->
    all_chars p run = true ->
    p (first_char rest) = false ->
    len run <= fuel ->
    while_peek_fuel p fuel self = set_cur_pos (_cur_pos self + len run) self.
Proof.
  induction run as [|x run IH]; intros fuel self a rest Hs Hc Hall Hstop Hfuel.
  - simpl. rewrite Nat.add_0_r, set_cur_pos_same.
    destruct fuel; simpl; auto.
    rewrite (peek_first_char self a rest), Hstop; auto.
  - simpl in Hall. apply andb_prop in Hall as [Hx Hall].
    destruct fuel as [|fuel]; [simpl in Hfuel; lia|].
    simpl. rewrite (peek_first_char self a (String x run ++ rest)); auto.
    simpl. rewrite Hx.
    rewrite (IH fuel _ (a ++ str1 x) rest); simpl; auto.
    + unfold set_cur_pos; simpl. f_equal. unfold len. lia.
    + rewrite Hs, str_app_assoc. reflexivity.
    + unfold len in *. rewrite str_length_app. simpl. lia.
    + simpl in Hfuel. unfold len in *. lia.
Qed.

(** The loop as the code runs it, with the fuel the model gives it. *)
Lemma while_peek_run (self : TokenGenerator) (a run rest : string) :
  _source self = a ++ run ++ rest ->
  _cur_pos self + 1 = len a ->
  all_chars p run = true ->
  p (first_char rest) = false ->
  while_peek p self = (Ok tt, set_cur_pos (_cur_pos self + len run) self).
Proof.
  intros Hs Hc Hall Hstop. unfold while_peek, modify. f_equal.
  apply (while_peek_fuel_run run _ self a rest); auto.
  rewrite Hs. unfold len. rewrite !str_length_app. lia.
Qed.

(** The fuel never decides: when [p] rejects the null character, the loop
    ends on a lookahead that [p] rejects. *)
Lemma while_peek_fuel_exit (fuel : nat) (self : TokenGenerator) :
  p NUL = false ->
  len (_source self) <= _cur_pos self + 1 + fuel ->
  p (_peek (while_peek_fuel p fuel self)) = false.
Proof.
  intros Hnul. revert self; induction fuel as [|fuel IH]; intros self Hlen; simpl.
  - unfold _peek, getitem. rewrite get_beyond; auto. unfold len in Hlen. lia.
  - destruct (p (_peek self)) eqn:Hp; auto.
    apply IH. simpl. lia.
Qed.

Lemma while_peek_exit (self : TokenGenerator) :
  p NUL = false ->
  p (_peek (snd (while_peek p self))) = false.
Proof.
  intros Hnul. unfold while_peek, modify; simpl.
  apply while_peek_fuel_exit; auto. lia.
Qed.

End Loops.

(** ** Methods that only move the cursor *)

Section OnlyMoves.

Lemma moved_on_refl (self : TokenGenerator) : moved_on self self.
Proof. unfold moved_on; auto. Qed.

Lemma moved_on_trans (a b c : TokenGenerator) :
  moved_on a b -> moved_on b c -> moved_on a c.
Proof.
  unfold moved_on. intros (H1 & H2 & H3 & H4) (K1 & K2 & K3 & K4).
  repeat split; try congruence. lia.
Qed.

Lemma only_moves_ret {A} (a : A) : only_moves (ret a).
Proof. intros self r self' [= <- <-]. apply moved_on_refl. Qed.

Lemma only_moves_raise {A} (e : exn) : only_moves (@raise A e).
Proof. intros self r self' [= <- <-]. apply moved_on_refl. Qed.

Lemma only_moves_gets {A} (f : TokenGenerator -> A) : only_moves (gets f).
Proof. intros self r self' [= <- <-]. apply moved_on_refl. Qed.

Lemma only_moves_advance (n : nat) : only_moves (advance n).
Proof.
  intros self r self' [= <- <-]. unfold moved_on; simpl. repeat split; lia.
Qed.

Lemma only_moves_while_peek (p : ascii -> bool) : only_moves (while_peek p).
Proof. intros self r self' [= <- <-]. apply while_peek_fuel_moved. Qed.

Lemma only_moves_bind {A B} (m : M A) (k : A -> M B) :
  only_moves m -> (forall a, only_moves (k a)) -> only_moves (bind m k).
Proof.
  intros Hm Hk self r self'. unfold bind.
  destruct (m self) as [[a|e] mid] eqn:E; intros H.
  - eapply moved_on_trans; [eapply Hm; eauto | eapply Hk; eauto].
  - injection H as <- <-. eapply Hm; eauto.
Qed.

End OnlyMoves.

Create HintDb moves.
#[local] Hint Resolve only_moves_ret only_moves_raise only_moves_gets
  only_moves_advance only_moves_while_peek : moves.

Ltac only_moves_step :=
  match goal with
  | |- only_moves (bind _ _) => apply only_moves_bind; [|intros]
  | |- only_moves (if ?b then _ else _) => destruct b
  | |- only_moves (match ?o with Some _ => _ | None => _ end) => destruct o
  | |- only_moves _ => solve [auto with moves]
  end.

Section Strategies.

Lemma only_moves_get_number c : only_moves (_get_number c).
Proof. unfold _get_number. repeat only_moves_step. Qed.

Lemma only_moves_get_ident_or_keyword c : only_moves (_get_ident_or_keyword c).
Proof. unfold _get_ident_or_keyword. repeat only_moves_step. Qed.

Lemma only_moves_get_string c : only_moves (_get_string c).
Proof. unfold _get_string. repeat only_moves_step. Qed.

Lemma only_moves_get_EOF c : only_moves (_get_EOF c).
Proof. unfold _get_EOF. repeat only_moves_step. Qed.

Lemma only_moves_get_newlines c : only_moves (_get_newlines c).
Proof. unfold _get_newlines. repeat only_moves_step. Qed.

Lemma only_moves_is_operator c : only_moves (_is_operator c).
Proof. unfold _is_operator. repeat only_moves_step. Qed.

Lemma only_moves_first_token strats c :
  Forall (fun strat => forall c, only_moves (strat c)) strats ->
  only_moves (first_token strats c).
Proof.
  induction 1 as [|strat strats Hs _ IH]; simpl.
  - auto with moves.
  - apply only_moves_bind; [apply Hs|].
    intros [token|]; auto with moves.
Qed.

Lemma only_moves_get_next_token c : only_moves (_get_next_token c).
Proof.
  apply only_moves_first_token. unfold lexing_strats.
  repeat (apply Forall_cons; [|]); try apply Forall_nil; intros c'.
  - apply only_moves_get_number.
  - apply only_moves_get_ident_or_keyword.
  - apply only_moves_get_EOF.
  - apply only_moves_get_newlines.
  - apply only_moves_get_string.
  - apply only_moves_is_operator.
Qed.

(** *** The shape of a call of [__next__] *)

Lemma next_at_end (self : TokenGenerator) :
  _at_end self = true -> __next__ self = (Raise StopIteration, self).
Proof. intros H. unfold __next__, bind, gets. simpl. rewrite H. reflexivity. Qed.

Lemma next_unfold (self : TokenGenerator) :
  _at_end self = false ->
  __next__ self =
    match _get_next_token (cur_char_of self) (mark_end self) with
    | (Ok token, self') => (Ok token, finish self')
    | (Raise e, self') => (Raise e, self')
    end.
Proof.
  intros H. unfold __next__, bind, gets. simpl. rewrite H.
  unfold mark_end, cur_char_of, modify, ret, id.
  destruct (String.eqb (_next_char self) (str1 NUL)); simpl;
    match goal with
    | |- context [_get_next_token ?c ?s] =>
        destruct (_get_next_token c s) as [[token|e] self']
    end; reflexivity.
Qed.

Lemma mark_end_source self : _source (mark_end self) = _source self.
Proof. unfold mark_end. destruct (String.eqb _ _); reflexivity. Qed.

Lemma mark_end_cur_pos self : _cur_pos (mark_end self) = _cur_pos self.
Proof. unfold mark_end. destruct (String.eqb _ _); reflexivity. Qed.

(** *** When a strategy does not apply *)

Lemma get_number_none c self :
  isdigit c = false -> _get_number c self = (Ok None, self).
Proof. intros H. unfold _get_number. rewrite H. reflexivity. Qed.

Lemma get_ident_none c self :
  isalpha c = false -> _get_ident_or_keyword c self = (Ok None, self).
Proof. intros H. unfold _get_ident_or_keyword. rewrite H. reflexivity. Qed.

Lemma get_EOF_none c self :
  c <> NUL -> _get_EOF c self = (Ok None, self).
Proof.
  intros H. unfold _get_EOF. destruct (Ascii.eqb_spec c NUL); [contradiction|].
  reflexivity.
Qed.

Lemma get_newlines_none c self :
  c <> LF -> _get_newlines c self = (Ok None, self).
Proof.
  intros H. unfold _get_newlines, str1. simpl.
  destruct (Ascii.eqb_spec c LF); [contradiction|]. simpl.
  destruct (Ascii.eqb c CR); reflexivity.
Qed.

Lemma get_string_none c self :
  c <> DQUOTE -> _get_string c self = (Ok None, self).
Proof.
  intros H. unfold _get_string. destruct (Ascii.eqb_spec c DQUOTE); [contradiction|].
  reflexivity.
Qed.

Lemma alpha_not_digit c : isalpha c = true -> isdigit c = false.
Proof. destruct c as [[] [] [] [] [] [] [] []]; vm_compute; congruence. Qed.

(** The first strategy decides on a digit. *)
Lemma get_next_token_digit c self :
  isdigit c = true ->
  _get_next_token c self =
    match _get_number c self with
    | (Ok (Some token), self') => (Ok token, self')
    | (Ok None, self') => first_token (tl lexing_strats) c self'
    | (Raise e, self') => (Raise e, self')
    end.
Proof.
  intros _. unfold _get_next_token, lexing_strats. simpl. unfold bind.
  destruct (_get_number c self) as [[[token|]|e] self']; reflexivity.
Qed.

(** The second strategy decides on a letter. *)
Lemma get_next_token_alpha c self :
  isalpha c = true ->
  _get_next_token c self =
    match _get_ident_or_keyword c self with
    | (Ok (Some token), self') => (Ok token, self')
    | (Ok None, self') => first_token (tl (tl lexing_strats)) c self'
    | (Raise e, self') => (Raise e, self')
    end.
Proof.
  intros H. unfold _get_next_token, lexing_strats. simpl. unfold bind.
  rewrite get_number_none by (apply alpha_not_digit; exact H).
  destruct (_get_ident_or_keyword c self) as [[[token|]|e] self']; reflexivity.
Qed.

(** What is left to the operator table. *)
Lemma get_next_token_other c self :
  isdigit c = false -> isalpha c = false ->
  c <> NUL -> c <> LF -> c <> DQUOTE ->
  _get_next_token c self =
    match _is_operator c self with
    | (Ok (Some token), self') => (Ok token, self')
    | (Ok None, self') => (Raise (UnrecognizedCharacter c), self')
    | (Raise e, self') => (Raise e, self')
    end.
Proof.
  intros Hd Ha Hn Hl Hq. unfold _get_next_token, lexing_strats. simpl. unfold bind.
  rewrite get_number_none, get_ident_none, get_EOF_none, get_newlines_none,
    get_string_none by assumption.
  destruct (_is_operator c self) as [[[token|]|e] self']; reflexivity.
Qed.

End Strategies.

(** ** The number rule *)

Section NumberRule.

Variables (self : TokenGenerator) (a : string) (d : ascii) (ds rest : string).
Hypothesis Hsource : _source self = a ++ String d ds ++ rest.
Hypothesis Hcursor : _cur_pos self = len a.
Hypothesis Hd : isdigit d = true.
Hypothesis Hdigits : all_chars isdigit ds = true.
Hypothesis Hstop : isdigit (first_char rest) = false.

Lemma digits_scanned :
  while_peek isdigit self = (Ok tt, set_cur_pos (len a + len ds) self).
Proof.
  rewrite <- Hcursor.
  apply (while_peek_run isdigit self (a ++ str1 d) ds rest); auto.
  - rewrite Hsource, str_app_assoc. reflexivity.
  - unfold len. rewrite str_length_app, Hcursor. reflexivity.
Qed.

Lemma peek_after_digits :
  _peek (set_cur_pos (len a + len ds) self) = first_char rest.
Proof.
  apply (peek_first_char _ (a ++ String d ds) rest); simpl.
  - rewrite Hsource, str_app_assoc. reflexivity.
  - unfold len. rewrite str_length_app. simpl. lia.
Qed.

Lemma get_number_integer :
  first_char rest <> "."%char ->
  _get_number d self =
    (Ok (Some (mkToken (String d ds) NUMBER)), set_cur_pos (len a + len ds) self).
Proof.
  intros Hdot. unfold _get_number. rewrite Hd.
  unfold bind at 1. unfold gets at 1.
  unfold bind at 1. rewrite digits_scanned.
  unfold bind at 1. unfold gets at 1. rewrite peek_after_digits.
  destruct (Ascii.eqb_spec (first_char rest) "."); [contradiction|].
  unfold bind, ret, gets, id. simpl.
  rewrite Hsource, Hcursor.
  replace (Z.of_nat (len a + len ds + 1))
    with (Z.of_nat (len a + len (String d ds))) by (simpl; lia).
  rewrite slice_span. reflexivity.
Qed.

Section AfterTheDot.

Variable tail : string.
Hypothesis Hrest : rest = String "." tail.

Lemma peek_on_dot :
  _peek (set_cur_pos (len a + len ds) self) = "."%char.
Proof. rewrite peek_after_digits, Hrest. reflexivity. Qed.

Lemma peek_after_dot :
  _peek (set_cur_pos (len a + len ds + 1) self) = first_char tail.
Proof.
  apply (peek_first_char _ (a ++ String d ds ++ ".") tail).
  - change (_source self = (a ++ String d ds ++ ".") ++ tail).
    rewrite Hsource, Hrest. str_normal.
  - unfold len. simpl. rewrite !str_length_app. simpl.
    rewrite str_length_app. simpl. lia.
Qed.

(** A dot with no digit behind it: the method raises, the cursor left on
    the dot. *)
Lemma get_number_malformed :
  isdigit (first_char tail) = false ->
  _get_number d self =
    (Raise MalformedNumber, set_cur_pos (len a + len ds + 1) self).
Proof.
  intros Hbad. unfold _get_number. rewrite Hd.
  unfold bind at 1. unfold gets at 1.
  unfold bind at 1. rewrite digits_scanned.
  unfold bind at 1. unfold gets at 1. rewrite peek_on_dot. simpl.
  unfold bind, advance, modify, gets, raise. simpl.
  rewrite !set_cur_pos_twice, peek_after_dot, Hbad. reflexivity.
Qed.

(** A dot with digits behind it. *)
Lemma get_number_decimal (f : ascii) (fs rest' : string) :
  tail = String f fs ++ rest' ->
  isdigit f = true ->
  all_chars isdigit fs = true ->
  isdigit (first_char rest') = false ->
  _get_number d self =
    (Ok (Some (mkToken (String d ds ++ String "." (String f fs)) NUMBER)),
     set_cur_pos (len a + len ds + 1 + len (String f fs)) self).
Proof.
  intros Htail Hf Hfs Hend. unfold _get_number. rewrite Hd.
  unfold bind at 1. unfold gets at 1.
  unfold bind at 1. rewrite digits_scanned.
  unfold bind at 1. unfold gets at 1. rewrite peek_on_dot. simpl.
  unfold bind, advance, modify, gets, raise. simpl.
  rewrite !set_cur_pos_twice, peek_after_dot, Htail. 
  change (first_char (String f fs ++ rest')) with f. rewrite Hf. simpl negb.
  cbv iota.
  rewrite (while_peek_run isdigit _ (a ++ String d ds ++ ".") (String f fs) rest').
  - unfold ret, id. simpl. rewrite Hsource, Hrest, Htail, Hcursor.
    replace (a ++ String d ds ++ String "." (String f fs ++ rest'))
      with (a ++ (String d ds ++ String "." (String f fs)) ++ rest')
      by str_normal.
    replace (Z.of_nat (len a + len ds + 1 + S (len fs) + 1))
      with (Z.of_nat (len a + len (String d ds ++ String "." (String f fs)))).
    2:{ unfold len. simpl. rewrite str_length_app. simpl. lia. }
    rewrite slice_span. reflexivity.
  - simpl. rewrite Hsource, Hrest, Htail. str_normal.
  - simpl. unfold len. rewrite !str_length_app. simpl.
    rewrite str_length_app. simpl. lia.
  - simpl. rewrite Hf, Hfs. reflexivity.
  - exact Hend.
Qed.

End AfterTheDot.

End NumberRule.

(** ** The identifier rule *)

Section IdentRule.

Variables (self : TokenGenerator) (a : string) (c : ascii) (w rest : string).
Hypothesis Hsource : _source self = a ++ String c w ++ rest.
Hypothesis Hcursor : _cur_pos self = len a.
Hypothesis Hc : isalpha c = true.
Hypothesis Hword : all_chars isalnum w = true.
Hypothesis Hstop : isalnum (first_char rest) = false.

Lemma get_ident_or_keyword_word :
  _get_ident_or_keyword c self =
    (Ok (Some (mkToken (String c w) (ident_kind (String c w)))),
     set_cur_pos (len a + len w) self).
Proof.
  unfold _get_ident_or_keyword. rewrite Hc.
  unfold bind at 1. unfold gets at 1.
  unfold bind at 1.
  rewrite (while_peek_run isalnum self (a ++ str1 c) w rest); auto.
  - unfold bind, gets, id. simpl. rewrite Hsource, Hcursor.
    replace (Z.of_nat (len a + len w + 1))
      with (Z.of_nat (len a + len (String c w))) by (simpl; lia).
    rewrite slice_span. unfold ident_kind.
    destruct (check_if_keyword (String c w)); reflexivity.
  - rewrite Hsource. str_normal.
  - unfold len. rewrite str_length_app, Hcursor. reflexivity.
Qed.

End IdentRule.

Section Keywords.

(** The keyword classifier returns the member that has the text as its
    name and a value in the keyword band, and nothing else. *)
Lemma check_if_keyword_spec (token_text : string) (kind : TokenType) :
  check_if_keyword token_text = Some kind <->
  name kind = token_text /\ is_keyword kind = true.
Proof.
  unfold check_if_keyword, is_keyword. split.
  - intros H. apply find_some in H as [_ H].
    rewrite <- andb_assoc in H. apply andb_prop in H as [H1 H2].
    apply String.eqb_eq in H1. auto.
  - intros [<- H]. destruct kind; try discriminate H; reflexivity.
Qed.

Lemma check_if_keyword_none (token_text : string) :
  check_if_keyword token_text = None <->
  forall kind, is_keyword kind = true -> name kind <> token_text.
Proof.
  split.
  - intros H kind Hk Hn.
    assert (E : check_if_keyword token_text = Some kind)
      by (apply check_if_keyword_spec; auto).
    congruence.
  - intros H. destruct (check_if_keyword token_text) as [kind|] eqn:E; auto.
    apply check_if_keyword_spec in E as [E1 E2]. elim (H kind E2 E1).
Qed.

End Keywords.

(** ** From a strategy to [__next__] *)

Section Next.

Variable self : TokenGenerator.
Hypothesis Hlive : _at_end self = false.

Lemma cur_char_at (a rest : string) :
  _source self = a ++ rest -> _cur_pos self = len a ->
  cur_char_of self = first_char rest.
Proof.
  intros Hs Hc. unfold cur_char_of, getitem. rewrite Hs, Hc.
  apply get_first_char.
Qed.

Lemma next_of_token (token : Token) (self' : TokenGenerator) :
  _get_next_token (cur_char_of self) (mark_end self) = (Ok token, self') ->
  __next__ self = (Ok token, finish self').
Proof. intros H. rewrite next_unfold, H; auto. Qed.

Lemma next_of_raise (e : exn) (self' : TokenGenerator) :
  _get_next_token (cur_char_of self) (mark_end self) = (Raise e, self') ->
  __next__ self = (Raise e, self').
Proof. intros H. rewrite next_unfold, H; auto. Qed.

End Next.

(** ** The operator table *)

Section Operators.

(** The two-character keys of the table. *)
Lemma two_char_keys (c d : ascii) (kind : TokenType) :
  dict_get TOKEN_TYPES (str1 c ++ str1 d) = Some kind ->
  d = "="%char /\
  ((c = "<"%char /\ kind = LTEQ) \/ (c = ">"%char /\ kind = GTEQ) \/
   (c = "="%char /\ kind = EQEQ) \/ (c = "!"%char /\ kind = NOTEQ)).
Proof.
  unfold TOKEN_TYPES, str1. cbn [dict_get String.eqb append].
  destruct (Ascii.eqb_spec "=" d) as [<-|Hd].
  - destruct (Ascii.eqb_spec "<" c) as [<-|]; [simpl; intros [= <-]; auto|].
    destruct (Ascii.eqb_spec ">" c) as [<-|]; [simpl; intros [= <-]; auto|].
    destruct (Ascii.eqb_spec "=" c) as [<-|]; [simpl; intros [= <-]; auto 6|].
    destruct (Ascii.eqb_spec "!" c) as [<-|]; [simpl; intros [= <-]; auto 6|].
    repeat match goal with
           | |- context [Ascii.eqb ?x c] => destruct (Ascii.eqb x c)
           end; discriminate.
  - repeat match goal with
           | |- context [Ascii.eqb ?x c] => destruct (Ascii.eqb x c)
           end; discriminate.
Qed.

(** A two-character key wins over the one-character key. *)
Lemma is_operator_two (c : ascii) (self : TokenGenerator) (kind : TokenType) :
  dict_get TOKEN_TYPES (str1 c ++ str1 (_peek self)) = Some kind ->
  _is_operator c self =
    (Ok (Some (mkToken (str1 c ++ str1 (_peek self)) kind)),
     set_cur_pos (_cur_pos self + 1) self).
Proof.
  intros H. unfold _is_operator, bind, gets. rewrite H. reflexivity.
Qed.

Lemma peek_mark_end (self : TokenGenerator) : _peek (mark_end self) = _peek self.
Proof. unfold _peek. rewrite mark_end_source, mark_end_cur_pos. reflexivity. Qed.

End Operators.

(** ** Every call moves the cursor; iteration ends *)

Section Progress.

(** What a call of [__next__] does to the object, however it ends. *)
Lemma next_effect (self : TokenGenerator) (r : result Token) (self' : TokenGenerator) :
  __next__ self = (r, self') ->
  _source self' = _source self /\
  _cur_pos self <= _cur_pos self' /\
  (_at_end self = true -> _at_end self' = true) /\
  (forall token, r = Ok token ->
     _at_end self = false /\
     exists mid, moved_on (mark_end self) mid /\ self' = finish mid).
Proof.
  destruct (_at_end self) eqn:Hend.
  - rewrite next_at_end by assumption. intros [= <- <-].
    split; [reflexivity|]. split; [lia|]. split; [auto|]. discriminate.
  - rewrite next_unfold by assumption.
    destruct (_get_next_token (cur_char_of self) (mark_end self))
      as [[token|e] mid] eqn:E;
      apply only_moves_get_next_token in E as (H1 & H2 & H3 & H4);
      rewrite mark_end_source in H1; rewrite mark_end_cur_pos in H4;
      intros [= <- <-]; simpl.
    + split; [exact H1|]. split; [lia|].
      split; [intros; congruence|].
      intros _ _. split; [reflexivity|].
      exists mid. split; [|reflexivity].
      unfold moved_on. rewrite mark_end_source, mark_end_cur_pos. auto.
    + split; [exact H1|]. split; [lia|].
      split; [intros; congruence|]. discriminate.
Qed.

(** A successful call moves the cursor by one position at least. *)
Lemma next_advances (self : TokenGenerator) (token : Token) (self' : TokenGenerator) :
  __next__ self = (Ok token, self') -> _cur_pos self < _cur_pos self'.
Proof.
  intros H. apply next_effect in H as (_ & _ & _ & H).
  destruct (H token eq_refl) as (_ & mid & (_ & _ & _ & Hle) & ->).
  rewrite mark_end_cur_pos in Hle. simpl. lia.
Qed.

Lemma get_some_within (s : string) (i : nat) (c : ascii) :
  String.get i s = Some c -> i < String.length s.
Proof.
  intros H. destruct (Nat.lt_ge_cases i (String.length s)) as [|Hge]; auto.
  rewrite get_beyond in H by assumption. discriminate.
Qed.

(** A successful call uses up one of the calls that are left. *)
Lemma next_calls_left (self : TokenGenerator) (token : Token) (self' : TokenGenerator) :
  __next__ self = (Ok token, self') -> calls_left self' < calls_left self.
Proof.
  intros H. apply next_effect in H as (_ & _ & _ & H).
  destruct (H token eq_refl) as (Hlive & mid & (Hs & Hn & He & Hle) & ->).
  unfold calls_left. rewrite Hlive. simpl.
  rewrite He, Hs, mark_end_source. rewrite mark_end_cur_pos in Hle.
  unfold mark_end.
  destruct (String.eqb (_next_char self) (str1 NUL)) eqn:Hnext; simpl.
  - lia.
  - rewrite Hlive.
    destruct (Ascii.eqb_spec (_peek mid) NUL) as [|Hpeek]; [lia|].
    unfold _peek, getitem in Hpeek.
    destruct (String.get (_cur_pos mid + 1) (_source mid)) eqn:G;
      [|contradiction].
    apply get_some_within in G. rewrite Hs, mark_end_source in G.
    unfold len. lia.
Qed.

(** With more fuel than calls left, collecting the tokens ends by an
    exception of [__next__], never by the fuel. *)
Lemma collect_ends (fuel : nat) :
  forall self, calls_left self < fuel -> snd (collect fuel self) <> OutOfFuel.
Proof.
  induction fuel as [|fuel IH]; intros self Hfuel; [lia|].
  simpl. destruct (__next__ self) as [[token|e] self'] eqn:E.
  - apply next_calls_left in E.
    specialize (IH self' ltac:(lia)).
    destruct (collect fuel self') as [tokens e]. exact IH.
  - destruct e; discriminate.
Qed.

Lemma tokenize_ends (input : string) : snd (tokenize input) <> OutOfFuel.
Proof. unfold tokenize. apply collect_ends. lia. Qed.

(** Over any number of successful calls the source stays, the cursor does
    not go back, and the end flag stays set. *)
Lemma reaches_effect (self self' : TokenGenerator) :
  reaches self self' ->
  _source self' = _source self /\
  _cur_pos self <= _cur_pos self' /\
  (_at_end self = true -> _at_end self' = true).
Proof.
  induction 1 as [self|self token mid self' Hstep _ IH]; [auto|].
  apply next_effect in Hstep as (H1 & H2 & H3 & _).
  destruct IH as (K1 & K2 & K3).
  repeat split; try congruence; try lia; auto.
Qed.

End Progress.

(** ** Substitution by a pattern *)

Section Substitution.

Variables (pattern : Pattern) (repl : Match -> string).

(** Passing over the rest of a match. *)
Lemma sub_from_skip (x y : string) :
  sub_from pattern repl (len x) (x ++ y) = sub_from pattern repl 0 y.
Proof.
  induction x as [|c x IH]; simpl; [destruct y; reflexivity | exact IH].
Qed.

Lemma sub_from_no_match (c : ascii) (s : string) :
  pattern (String c s) = None ->
  sub_from pattern repl 0 (String c s) = String c (sub_from pattern repl 0 s).
Proof. intros H. simpl. rewrite H. reflexivity. Qed.

(** Replacing a match [x] found at the head of the text. *)
Lemma sub_from_match (c : ascii) (x y : string) (m : Match) :
  pattern (String c x ++ y) = Some m ->
  group0 m = String c x ->
  sub_from pattern repl 0 (String c x ++ y) = repl m ++ sub_from pattern repl 0 y.
Proof.
  intros H G. simpl. simpl in H. rewrite H, G. simpl.
  f_equal. apply sub_from_skip.
Qed.

End Substitution.

(** ** Comment removal *)

Section Comments.

Lemma prefix_two (a b c d : ascii) (s : string) :
  prefix (String a (String b EmptyString)) (String c (String d s))
  = Ascii.eqb c a && Ascii.eqb d b.
Proof.
  simpl. destruct (ascii_dec a c) as [<-|Hac].
  - rewrite Ascii.eqb_refl. destruct (ascii_dec b d) as [<-|Hbd].
    + rewrite Ascii.eqb_refl. destruct s; reflexivity.
    + destruct (Ascii.eqb_spec d b); [congruence | reflexivity].
  - destruct (Ascii.eqb_spec c a); [congruence | reflexivity].
Qed.

Lemma prefix_one (a b c : ascii) :
  prefix (String a (String b EmptyString)) (String c EmptyString) = false.
Proof. cbn [prefix]. destruct (ascii_dec a c); reflexivity. Qed.

Lemma has_cons (sub : string) (c : ascii) (s : string) :
  has sub (String c s) = false ->
  prefix sub (String c s) = false /\ has sub s = false.
Proof.
  intros H. change (prefix sub (String c s) || has sub s = false) in H.
  apply orb_false_elim in H. exact H.
Qed.

(** Where no comment opens, nothing is removed. *)
Lemma remove_comments_none (pre x : string) :
  has "/*" pre = false ->
  first_char x <> "*"%char ->
  _remove_comments (pre ++ x) = pre ++ _remove_comments x.
Proof.
  unfold _remove_comments, re_sub. intros Hpre Hx.
  induction pre as [|c pre IH]; [reflexivity|].
  apply has_cons in Hpre as [Hhead Hpre].
  change ((String c pre) ++ x) with (String c (pre ++ x)).
  rewrite sub_from_no_match.
  - simpl. f_equal. apply IH. exact Hpre.
  - unfold comment_pattern.
    destruct pre as [|c2 pre].
    + simpl. destruct x as [|c2 x]; [reflexivity|].
      simpl in Hx. destruct (Ascii.eqb_spec c2 "*"); [contradiction|].
      rewrite andb_false_r. reflexivity.
    + change (String c2 pre ++ x) with (String c2 (pre ++ x)). cbv beta iota.
      rewrite prefix_two in Hhead. rewrite Hhead. reflexivity.
Qed.

(** The text of a line continues behind characters other than the line
    feed. *)
Lemma line_of_app (mid x : string) :
  occurrences LF mid = 0 -> line_of (mid ++ x) = mid ++ line_of x.
Proof.
  induction mid as [|c mid IH]; intros H; [reflexivity|].
  simpl in *. destruct (Ascii.eqb c LF); [discriminate|].
  f_equal. apply IH. exact H.
Qed.

Lemma last_close_absent (s : string) :
  has "*/" s = false -> last_close s = None.
Proof.
  induction s as [|c s IH]; intros H; [reflexivity|].
  apply has_cons in H as [Hhead H].
  cbn [last_close]. rewrite (IH H), Hhead. reflexivity.
Qed.

Lemma last_close_app (mid s : string) (j : nat) :
  last_close s = Some j -> last_close (mid ++ s) = Some (len mid + j).
Proof.
  intros H. induction mid as [|c mid IH]; [exact H|].
  change (String c mid ++ s) with (String c (mid ++ s)).
  cbn [last_close]. rewrite IH. reflexivity.
Qed.

(** The last close of a line: the one that nothing closes after. *)
Lemma last_close_last (mid s : string) :
  has "*/" s = false ->
  last_close (mid ++ "*/" ++ s) = Some (len mid).
Proof.
  intros H. rewrite (last_close_app mid _ 0); [f_equal; unfold len; lia|].
  change ("*/" ++ s) with (String "*" (String "/" s)).
  assert (Hs : last_close (String "/" s) = None).
  { cbn [last_close]. rewrite (last_close_absent s H).
    destruct s; reflexivity. }
  cbn [last_close] in *. rewrite Hs. destruct s; reflexivity.
Qed.

(** On a line, everything from the first opening of a comment to the last
    close is one match. *)
Lemma comment_pattern_greedy (mid post : string) :
  occurrences LF mid = 0 ->
  has "*/" (line_of post) = false ->
  comment_pattern ("/*" ++ mid ++ "*/" ++ post)
  = Some (mkMatch ("/*" ++ mid ++ "*/") None).
Proof.
  intros Hmid Hpost.
  change ("/*" ++ mid ++ "*/" ++ post)
    with (String "/" (String "*" (mid ++ "*/" ++ post))).
  unfold comment_pattern.
  rewrite !Ascii.eqb_refl. simpl andb. cbv iota.
  rewrite line_of_app by assumption.
  change (line_of ("*/" ++ post)) with ("*/" ++ line_of post).
  rewrite last_close_last by assumption.
  do 2 f_equal.
  replace (String "/" (String "*" (mid ++ "*/" ++ post)))
    with (("/*" ++ mid ++ "*/") ++ post) by str_normal.
  replace (2 + len mid + 2) with (String.length ("/*" ++ mid ++ "*/")).
  - apply substring_take.
  - simpl. rewrite str_length_app. simpl. unfold len. lia.
Qed.

Lemma remove_comments_greedy (pre mid post : string) :
  has "/*" pre = false ->
  occurrences LF mid = 0 ->
  has "*/" (line_of post) = false ->
  _remove_comments (pre ++ "/*" ++ mid ++ "*/" ++ post)
  = pre ++ _remove_comments post.
Proof.
  intros Hpre Hmid Hpost.
  rewrite remove_comments_none by (auto; discriminate).
  f_equal. unfold _remove_comments, re_sub.
  replace ("/*" ++ mid ++ "*/" ++ post)
    with (String "/" ("*" ++ mid ++ "*/") ++ post) by str_normal.
  rewrite (sub_from_match _ _ _ _ _ (mkMatch ("/*" ++ mid ++ "*/") None)).
  - reflexivity.
  - replace (String "/" ("*" ++ mid ++ "*/") ++ post)
      with ("/*" ++ mid ++ "*/" ++ post) by str_normal.
    apply comment_pattern_greedy; assumption.
  - reflexivity.
Qed.

Lemma has_line_of (s : string) :
  has "*/" s = false -> has "*/" (line_of s) = false.
Proof.
  induction s as [|c s IH]; intros H; [reflexivity|].
  apply has_cons in H as [Hhead H]. specialize (IH H).
  cbn [line_of]. destruct (Ascii.eqb c LF); [reflexivity|].
  change (prefix "*/" (String c (line_of s)) || has "*/" (line_of s) = false).
  rewrite IH, orb_false_r.
  destruct s as [|c2 s]; [apply prefix_one|].
  cbn [line_of]. rewrite prefix_two in Hhead.
  destruct (Ascii.eqb c2 LF).
  - apply prefix_one.
  - rewrite prefix_two. exact Hhead.
Qed.

(** Where no comment closes, nothing is removed. *)
Lemma remove_comments_unclosed (s : string) :
  has "*/" s = false -> _remove_comments s = s.
Proof.
  unfold _remove_comments, re_sub.
  induction s as [|c s IH]; intros H; [reflexivity|].
  apply has_cons in H as [_ H].
  rewrite sub_from_no_match; [f_equal; auto|].
  unfold comment_pattern. destruct s as [|c2 rest]; [reflexivity|].
  apply has_cons in H as [_ H].
  rewrite (last_close_absent _ (has_line_of _ H)).
  destruct (Ascii.eqb c "/" && Ascii.eqb c2 "*"); reflexivity.
Qed.

(** On a single line the text before the first opening and the text
    behind the last close are all that stays. *)
Lemma remove_comments_line (pre mid post : string) :
  has "/*" pre = false ->
  occurrences LF mid = 0 ->
  has "*/" post = false ->
  _remove_comments (pre ++ "/*" ++ mid ++ "*/" ++ post) = pre ++ post.
Proof.
  intros Hpre Hmid Hpost.
  rewrite remove_comments_greedy by auto using has_line_of.
  rewrite remove_comments_unclosed by assumption. reflexivity.
Qed.

End Comments.

(** ** Whitespace removal *)

Section Whitespace.

Variable c : ascii.
Hypothesis Hc : is_hspace c = false.

Lemma occurrences_app (x y : string) :
  occurrences c (x ++ y) = occurrences c x + occurrences c y.
Proof. induction x as [|a x IH]; simpl; [reflexivity | rewrite IH; lia]. Qed.

Lemma take_drop (n : nat) (s : string) : substring 0 n s ++ drop n s = s.
Proof.
  revert n; induction s as [|a s IH]; intros [|n]; simpl; try reflexivity.
  rewrite IH. reflexivity.
Qed.

Lemma take_length (n : nat) (s : string) :
  substring 0 (String.length (substring 0 n s)) s = substring 0 n s.
Proof.
  revert n; induction s as [|a s IH]; intros [|n]; simpl; try reflexivity.
  rewrite IH. reflexivity.
Qed.

Lemma occurrences_span (p : ascii -> bool) (s : string) :
  p c = false -> occurrences c (substring 0 (span_len p s) s) = 0.
Proof.
  intros Hp. induction s as [|a s IH]; [reflexivity|].
  simpl. destruct (p a) eqn:Ha; [|reflexivity].
  simpl. rewrite IH.
  destruct (Ascii.eqb_spec a c); [congruence | reflexivity].
Qed.

(** What the pattern matches is a prefix of the text, and the replacement
    keeps every character [c] of it. *)
Lemma whitespace_pattern_keeps (s : string) (m : Match) :
  whitespace_pattern s = Some m ->
  (exists n, group0 m = substring 0 n s) /\
  occurrences c (if truthy (group1 m) then EmptyString else group0 m)
  = occurrences c (group0 m).
Proof.
  unfold whitespace_pattern. destruct s as [|a rest]; [discriminate|].
  destruct (if Ascii.eqb a DQUOTE then index_of DQUOTE rest else None) as [j|].
  - intros [= <-]. cbn [group0 group1 truthy].
    split; [exists (j + 2); reflexivity | reflexivity].
  - destruct (is_hspace a) eqn:Ha; [|discriminate].
    intros [= <-]. cbn [group0 group1].
    split; [exists (span_len is_hspace (String a rest)); reflexivity|].
    rewrite Ha. cbn [truthy occurrences].
    rewrite (occurrences_span is_hspace) by exact Hc.
    destruct (Ascii.eqb_spec a c); [congruence | reflexivity].
Qed.

Lemma sub_from_whitespace_keeps (s : string) :
  forall skip,
    occurrences c
      (sub_from whitespace_pattern
         (fun x => if truthy (group1 x) then EmptyString else group0 x) skip s)
    = occurrences c (drop skip s).
Proof.
  induction s as [|a s IH]; intros skip; [destruct skip; reflexivity|].
  destruct skip as [|skip]; [|apply IH].
  cbn [sub_from drop].
  destruct (whitespace_pattern (String a s)) as [m|] eqn:E.
  - apply whitespace_pattern_keeps in E as [[n Hn] Hocc].
    destruct (len (group0 m)) as [|k] eqn:Hlen.
    + rewrite occurrences_app, Hocc.
      destruct (group0 m); [|discriminate]. simpl. rewrite (IH 0).
      destruct s; reflexivity.
    + rewrite occurrences_app, Hocc, IH.
      transitivity (occurrences c (substring 0 (S k) (String a s) ++ drop k s)).
      * rewrite occurrences_app. f_equal.
        rewrite <- Hlen, Hn. unfold len. rewrite take_length. reflexivity.
      * change (drop k s) with (drop (S k) (String a s)).
        rewrite take_drop. reflexivity.
  - simpl. rewrite (IH 0). destruct s; reflexivity.
Qed.

(** Whitespace removal keeps every character that is not horizontal
    whitespace. *)
Lemma remove_whitespace_keeps (input : string) :
  occurrences c (_remove_whitespace input) = occurrences c input.
Proof.
  unfold _remove_whitespace, re_sub. rewrite sub_from_whitespace_keeps.
  destruct input; reflexivity.
Qed.

End Whitespace.

(** ** Sources without a null character *)

Section NullFree.

Lemma occurrences_drop (c : ascii) (n : nat) (s : string) :
  occurrences c (drop n s) <= occurrences c s.
Proof.
  revert n; induction s as [|a s IH]; intros [|n]; simpl; try lia.
  specialize (IH n). lia.
Qed.

Lemma sub_from_comments_no_new (c : ascii) (s : string) :
  forall skip,
    occurrences c (sub_from comment_pattern (fun _ => EmptyString) skip s)
    <= occurrences c (drop skip s).
Proof.
  induction s as [|a s IH]; intros skip; [destruct skip; simpl; lia|].
  destruct skip as [|skip]; [|apply IH].
  cbn [sub_from drop].
  destruct (comment_pattern (String a s)) as [m|].
  - destruct (len (group0 m)) as [|k].
    + specialize (IH 0). simpl. destruct s; simpl in *; lia.
    + specialize (IH k). pose proof (occurrences_drop c k s).
      cbn [append occurrences]. lia.
  - specialize (IH 0). simpl. destruct s; simpl in *; lia.
Qed.

(** Comment removal adds no character. *)
Lemma remove_comments_no_new (c : ascii) (s : string) :
  occurrences c (_remove_comments s) <= occurrences c s.
Proof.
  unfold _remove_comments, re_sub.
  pose proof (sub_from_comments_no_new c s 0). destruct s; exact H.
Qed.

Lemma init_source_null_free (input : string) :
  occurrences NUL input = 0 -> occurrences NUL (_source (__init__ input)) = 0.
Proof.
  intros H. simpl.
  pose proof (remove_comments_no_new NUL (_remove_whitespace input)) as Hle.
  rewrite remove_whitespace_keeps in Hle by reflexivity. lia.
Qed.

Lemma get_null_free (s : string) (i : nat) (c : ascii) :
  occurrences NUL s = 0 -> String.get i s = Some c -> c <> NUL.
Proof.
  revert i; induction s as [|a s IH]; intros i H G; [discriminate|].
  simpl in H. destruct (Ascii.eqb_spec a NUL) as [|Ha]; [discriminate|].
  destruct i; simpl in G; [congruence | eauto].
Qed.

Lemma init_end_only_at_end (input : string) : end_only_at_end (__init__ input).
Proof. split; simpl; discriminate. Qed.

Lemma next_end_only_at_end (self : TokenGenerator) (token : Token)
      (self' : TokenGenerator) :
  occurrences NUL (_source self) = 0 ->
  end_only_at_end self ->
  __next__ self = (Ok token, self') ->
  end_only_at_end self'.
Proof.
  intros Hfree [Hend Hnext] H.
  apply next_effect in H as (_ & _ & _ & H).
  destruct (H token eq_refl) as (Hlive & mid & (Hs & Hn & He & Hle) & ->).
  rewrite mark_end_source in Hs. rewrite mark_end_cur_pos in Hle.
  split; simpl; rewrite Hs.
  - rewrite He. unfold mark_end.
    destruct (String.eqb_spec (_next_char self) (str1 NUL)) as [E|_]; simpl.
    + intros _. specialize (Hnext E). lia.
    + congruence.
  - intros [= Hpeek]. unfold _peek, getitem in Hpeek.
    destruct (String.get (_cur_pos mid + 1) (_source mid)) as [c|] eqn:G.
    + rewrite Hs in G. elim (get_null_free _ _ _ Hfree G Hpeek).
    + destruct (Nat.lt_ge_cases (_cur_pos mid + 1) (len (_source self)))
        as [Hlt|]; [|assumption].
      rewrite <- Hs in Hlt. apply get_within in Hlt as [c Hc]. congruence.
Qed.

Lemma reaches_end_only_at_end (self self' : TokenGenerator) :
  reaches self self' ->
  occurrences NUL (_source self) = 0 ->
  end_only_at_end self ->
  end_only_at_end self' /\ _source self' = _source self.
Proof.
  induction 1 as [self|self token mid self' Hstep _ IH]; intros Hfree Hinv; [auto|].
  pose proof (next_end_only_at_end _ _ _ Hfree Hinv Hstep) as Hmid.
  apply next_effect in Hstep as (Hs & _).
  destruct IH as [IH1 IH2]; [congruence | assumption |].
  split; congruence.
Qed.

(** On a character of the source, a generator that keeps the flag for the
    end is live and marks nothing. *)
Lemma live_on_char (self : TokenGenerator) (c : ascii) :
  end_only_at_end self ->
  getitem (_source self) (_cur_pos self) = Some c ->
  _at_end self = false /\ mark_end self = self.
Proof.
  intros [Hend Hnext] G. unfold getitem in G. apply get_some_within in G.
  unfold len in *. split.
  - destruct (_at_end self); [specialize (Hend eq_refl); lia | reflexivity].
  - unfold mark_end.
    destruct (String.eqb_spec (_next_char self) (str1 NUL)) as [E|_];
      [specialize (Hnext E); lia | reflexivity].
Qed.

End NullFree.

(** ** The EOF token on a source that is not empty *)

Section EndOfInput.

Lemma post_ret {A} (a : A) (Q : result A -> Prop) : Q (Ok a) -> post (ret a) Q.
Proof. intros H self r self' [= <- _]. exact H. Qed.

Lemma post_raise {A} (e : exn) (Q : result A -> Prop) :
  Q (Raise e) -> post (raise e) Q.
Proof. intros H self r self' [= <- _]. exact H. Qed.

Lemma post_gets {A} (f : TokenGenerator -> A) : post (gets f) no_stop.
Proof. intros self r self' [= <- _]. discriminate. Qed.

Lemma post_modify (f : TokenGenerator -> TokenGenerator) : post (modify f) no_stop.
Proof. intros self r self' [= <- _]. discriminate. Qed.

(** Behind a step that does not stop the iteration, the rest decides. *)
Lemma post_bind {A B} (m : M A) (k : A -> M B) (Q : result B -> Prop) :
  post m no_stop ->
  (forall a, post (k a) Q) ->
  (forall e, e <> StopIteration -> Q (Raise e)) ->
  post (bind m k) Q.
Proof.
  intros Hm Hk HQ self r self'. unfold bind.
  destruct (m self) as [[a|e] mid] eqn:E.
  - apply Hk.
  - intros [= <- _]. apply HQ. intros ->. exact (Hm _ _ _ E eq_refl).
Qed.

Ltac post_step :=
  match goal with
  | |- post (bind _ _) _ => apply post_bind; [| intros | intros ? ?]
  | |- post (if ?b then _ else _) _ => destruct b
  | |- post (match ?o with Some _ => _ | None => _ end) _ => destruct o eqn:?
  | |- post (gets _) no_stop => apply post_gets
  | |- post (advance _) no_stop => apply post_modify
  | |- post (while_peek _) no_stop => apply post_modify
  | |- post (ret _) _ => apply post_ret
  | |- post (raise _) _ => apply post_raise
  | |- no_stop _ => unfold no_stop, MalformedNumber; congruence
  | |- plain_token (Raise _) => unfold plain_token, MalformedNumber; congruence
  | |- plain_token (Ok None) => exact I
  end.

Lemma plain_get_number c : post (_get_number c) plain_token.
Proof. unfold _get_number. repeat post_step. simpl. discriminate. Qed.

Lemma plain_get_ident_or_keyword c : post (_get_ident_or_keyword c) plain_token.
Proof.
  unfold _get_ident_or_keyword. repeat post_step; simpl; [|discriminate].
  intros ->.
  match goal with
  | H : check_if_keyword _ = Some EOF |- _ =>
      apply check_if_keyword_spec in H as [_ H]; discriminate H
  end.
Qed.

Lemma plain_get_string c : post (_get_string c) plain_token.
Proof. unfold _get_string. repeat post_step. simpl. discriminate. Qed.

Lemma plain_get_newlines c : post (_get_newlines c) plain_token.
Proof. unfold _get_newlines. repeat post_step. simpl. discriminate. Qed.

Lemma plain_get_EOF c : c <> NUL -> post (_get_EOF c) plain_token.
Proof.
  intros Hc self r self'. rewrite get_EOF_none by exact Hc.
  intros [= <- _]. exact I.
Qed.

(** No key of the operator table stands for the EOF token. *)
Lemma dict_get_not_EOF (key : string) : dict_get TOKEN_TYPES key <> Some EOF.
Proof.
  unfold TOKEN_TYPES. cbn [dict_get].
  repeat match goal with
         | |- context [String.eqb ?k key] => destruct (String.eqb k key)
         end; discriminate.
Qed.

Lemma plain_is_operator c : post (_is_operator c) plain_token.
Proof.
  unfold _is_operator. repeat post_step; simpl; intros ->;
    match goal with
    | H : dict_get TOKEN_TYPES _ = Some EOF |- _ => exact (dict_get_not_EOF _ H)
    end.
Qed.

Lemma plain_first_token strats c :
  Forall (fun strat => post (strat c) plain_token) strats ->
  post (first_token strats c) plain_result.
Proof.
  induction 1 as [|strat strats Hs _ IH]; intros self r self'; simpl.
  - intros [= <- _]. discriminate.
  - unfold bind. destruct (strat c self) as [[[token|]|e] mid] eqn:E.
    + intros [= <- _]. exact (Hs _ _ _ E).
    + apply IH.
    + intros [= <- _]. exact (Hs _ _ _ E).
Qed.

(** On a character other than the null character, the token is not the EOF
    token and the exception not [StopIteration]. *)
Lemma plain_get_next_token c : c <> NUL -> post (_get_next_token c) plain_result.
Proof.
  intros Hc. apply plain_first_token. unfold lexing_strats.
  repeat (apply Forall_cons; [|]); try apply Forall_nil.
  - apply plain_get_number.
  - apply plain_get_ident_or_keyword.
  - apply plain_get_EOF. exact Hc.
  - apply plain_get_newlines.
  - apply plain_get_string.
  - apply plain_is_operator.
Qed.

(** On the null character, the token is the EOF token. *)
Lemma get_next_token_NUL (self : TokenGenerator) :
  _get_next_token NUL self = (Ok EOF_token, self).
Proof. reflexivity. Qed.

(** A call of a generator in step: on a character of the source it gives a
    token other than EOF and stays in step, or raises an error; at the end of
    the source it gives the EOF token and sets the end flag. *)
Lemma next_in_step (self : TokenGenerator) (r : result Token) (self' : TokenGenerator) :
  in_step self ->
  __next__ self = (r, self') ->
  (cur_char_of self <> NUL /\
   match r with
   | Ok token => kind token <> EOF /\ in_step self'
   | Raise e => e <> StopIteration
   end) \/
  (cur_char_of self = NUL /\ r = Ok EOF_token /\ _at_end self' = true).
Proof.
  intros [Hlive Hiff]. rewrite next_unfold by exact Hlive.
  destruct (Ascii.eqb_spec (cur_char_of self) NUL) as [Hnul|Hchar].
  - rewrite Hnul, get_next_token_NUL. intros [= <- <-]. right.
    split; [reflexivity|]. split; [reflexivity|]. simpl. unfold mark_end.
    rewrite (proj2 Hiff Hnul). reflexivity.
  - assert (Hmark : mark_end self = self).
    { unfold mark_end.
      destruct (String.eqb_spec (_next_char self) (str1 NUL)) as [E|_];
        [elim (Hchar (proj1 Hiff E)) | reflexivity]. }
    rewrite Hmark.
    destruct (_get_next_token (cur_char_of self) self) as [[token|e] mid] eqn:E;
      intros [= <- <-];
      pose proof (plain_get_next_token _ Hchar _ _ _ E) as Hplain;
      left; (split; [exact Hchar|]); [|exact Hplain].
    split; [exact Hplain|].
    apply only_moves_get_next_token in E as (_ & _ & He & _).
    split; simpl; [congruence|].
    change (cur_char_of (finish mid)) with (_peek mid).
    split; [intros [= H]; exact H | intros ->; reflexivity].
Qed.

(** From a generator in step, the tokens before the end are no EOF tokens,
    and the iteration is exhausted right behind one EOF token. *)
Lemma collect_in_step (fuel : nat) :
  forall self,
    in_step self ->
    match collect fuel self with
    | (tokens, Exhausted) =>
        exists body,
          tokens = (body ++ [EOF_token])%list /\
          Forall (fun token => kind token <> EOF) body
    | (tokens, Failed _) => Forall (fun token => kind token <> EOF) tokens
    | (_, OutOfFuel) => True
    end.
Proof.
  induction fuel as [|fuel IH]; intros self Hstep; [exact I|].
  simpl. destruct (__next__ self) as [[token|e] self'] eqn:E.
  - destruct (next_in_step _ _ _ Hstep E) as [(_ & Hk & Hstep')|(_ & [= ->] & Hend)].
    + specialize (IH self' Hstep').
      destruct (collect fuel self') as [tokens [| |]]; auto.
      destruct IH as (body & -> & Hbody).
      exists (token :: body). split; [reflexivity | constructor; assumption].
    + destruct fuel as [|fuel]; [exact I|].
      simpl. rewrite next_at_end by exact Hend.
      exists []. split; [reflexivity | constructor].
  - destruct (next_in_step _ _ _ Hstep E) as [(_ & He)|(_ & [=] & _)].
    destruct e; [contradiction | constructor].
Qed.

(** A source that starts with a character other than the null character
    gives exactly one EOF token, as the last token, when the iteration is
    exhausted, and none when a call fails. *)
Lemma EOF_once_on_nonempty_source (input : string) :
  first_char (_source (__init__ input)) <> NUL ->
  match tokenize input with
  | (tokens, Exhausted) =>
      exists body,
        tokens = (body ++ [EOF_token])%list /\
        Forall (fun token => kind token <> EOF) body
  | (tokens, Failed _) => Forall (fun token => kind token <> EOF) tokens
  | (_, OutOfFuel) => False
  end.
Proof.
  intros Hfirst.
  pose proof (tokenize_ends input) as Hends.
  assert (Hstep : in_step (__init__ input)).
  { split; [reflexivity|].
    assert (Hcur : cur_char_of (__init__ input)
                   = first_char (_source (__init__ input))).
    { unfold cur_char_of, getitem. simpl _cur_pos.
      destruct (_source (__init__ input)); reflexivity. }
    rewrite Hcur. split; [discriminate | intros H; elim (Hfirst H)]. }
  unfold tokenize in *.
  pose proof (collect_in_step (S (calls_left (__init__ input))) _ Hstep) as H.
  destruct (collect (S (calls_left (__init__ input))) (__init__ input))
    as [tokens [| |]]; auto.
Qed.

End EndOfInput.

(** ** The properties of the specification *)

(** C1, as the code has it on the empty input: the first call of [__next__]
    sees the null character and returns the EOF token, the second call
    returns a second EOF token, and only the third call raises
    [StopIteration]; the same holds for an input that whitespace and comment
    removal leave empty.  The token is emitted twice there, not once. *)
Theorem C1_empty_input_emits_EOF_twice :
  (exists self1 self2,
     __next__ (__init__ EmptyString) = (Ok EOF_token, self1) /\
     __next__ self1 = (Ok EOF_token, self2) /\
     __next__ self2 = (Raise StopIteration, self2)) /\
  tokenize EmptyString = ([EOF_token; EOF_token], Exhausted) /\
  _source (__init__ "  /* nothing */ ") = EmptyString /\
  tokenize "  /* nothing */ " = ([EOF_token; EOF_token], Exhausted).
Proof.
  split; [|split; [|split]; vm_compute; reflexivity].
  exists (snd (__next__ (__init__ EmptyString))).
  exists (snd (__next__ (snd (__next__ (__init__ EmptyString))))).
  split; [|split]; vm_compute; reflexivity.
Qed.

(** C2, as the code has it: the string rule never raises; with no closing
    quote the search gives -1, the slice ends before the last character, and
    a STRING token with the shortened text is returned. *)
Theorem C2_unterminated_string_is_a_token :
  (forall cur_char self e, fst (_get_string cur_char self) <> Raise e) /\
  find (dquote ++ "unterminated") DQUOTE 1 = (-1)%Z /\
  tokenize (dquote ++ "unterminated")
  = ([mkToken "unterminate" STRING; EOF_token], Exhausted).
Proof.
  split; [|split; vm_compute; reflexivity].
  intros cur_char self e. unfold _get_string.
  destruct (Ascii.eqb cur_char DQUOTE); simpl; discriminate.
Qed.

(** C3: when the character at the cursor and the lookahead together are a
    key of the operator table, [__next__] returns the one token of that
    two-character key and leaves the cursor behind both characters; the
    source of a less-than sign and an equals sign gives the one LTEQ token,
    then EOF. *)
Theorem C3_maximal_munch :
  (forall self c kind,
     _at_end self = false ->
     getitem (_source self) (_cur_pos self) = Some c ->
     dict_get TOKEN_TYPES (str1 c ++ str1 (_peek self)) = Some kind ->
     exists self',
       __next__ self = (Ok (mkToken (str1 c ++ str1 (_peek self)) kind), self') /\
       _cur_pos self' = _cur_pos self + 2) /\
  tokenize "<=" = ([mkToken "<=" LTEQ; EOF_token], Exhausted).
Proof.
  split; [|vm_compute; reflexivity].
  intros self c kind Hlive Hget Hkey.
  assert (Hcur : cur_char_of self = c)
    by (unfold cur_char_of; rewrite Hget; reflexivity).
  exists (finish (set_cur_pos (_cur_pos (mark_end self) + 1) (mark_end self))).
  split; [|simpl; rewrite mark_end_cur_pos; lia].
  apply next_of_token; [exact Hlive|]. rewrite Hcur.
  rewrite <- peek_mark_end in Hkey |- *.
  assert (Hop : isdigit c = false /\ isalpha c = false /\
                c <> NUL /\ c <> LF /\ c <> DQUOTE).
  { destruct (two_char_keys _ _ _ Hkey) as (_ & [[-> _]|[[-> _]|[[-> _]|[-> _]]]]);
      (split; [reflexivity|]); (split; [reflexivity|]);
      (split; [discriminate|]); split; discriminate. }
  destruct Hop as (H1 & H2 & H3 & H4 & H5).
  rewrite get_next_token_other by assumption.
  rewrite (is_operator_two _ _ _ Hkey). reflexivity.
Qed.

Lemma C3_witness :
  exists self',
    __next__ (__init__ ">=1") = (Ok (mkToken ">=" GTEQ), self') /\
    _cur_pos self' = 2.
Proof.
  apply (proj1 C3_maximal_munch (__init__ ">=1") ">"%char GTEQ);
    vm_compute; reflexivity.
Defined.

(** C4: on a digit, [__next__] takes the digits that follow; if a dot
    follows them it takes the dot, which a digit must follow, and the digits
    behind it; the NUMBER token has the whole span as its text and the cursor
    is left behind the span.  A dot that no digit follows raises the
    malformed-number error.  So [123] and [12.5] are one NUMBER token each,
    and [12.] raises. *)
Theorem C4_number_rule :
  (forall self a d ds rest,
     _at_end self = false ->
     _source self = a ++ String d ds ++ rest ->
     _cur_pos self = len a ->
     isdigit d = true ->
     all_chars isdigit ds = true ->
     isdigit (first_char rest) = false ->
     (first_char rest <> "."%char ->
      exists self',
        __next__ self = (Ok (mkToken (String d ds) NUMBER), self') /\
        _cur_pos self' = len a + len (String d ds)) /\
     (forall f fs rest',
        rest = String "." (String f fs ++ rest') ->
        isdigit f = true ->
        all_chars isdigit fs = true ->
        isdigit (first_char rest') = false ->
        exists self',
          __next__ self
          = (Ok (mkToken (String d ds ++ String "." (String f fs)) NUMBER), self') /\
          _cur_pos self' = len a + len (String d ds ++ String "." (String f fs))) /\
     (forall tail,
        rest = String "." tail ->
        isdigit (first_char tail) = false ->
        exists self', __next__ self = (Raise MalformedNumber, self'))) /\
  tokenize "123" = ([mkToken "123" NUMBER; EOF_token], Exhausted) /\
  tokenize "12.5" = ([mkToken "12.5" NUMBER; EOF_token], Exhausted) /\
  tokenize "12." = ([], Failed MalformedNumber).
Proof.
  split; [|split; [|split]; vm_compute; reflexivity].
  intros self a d ds rest Hlive Hsource Hcursor Hd Hds Hstop.
  assert (Hcur : cur_char_of self = d)
    by (rewrite (cur_char_at self a (String d ds ++ rest)); auto).
  assert (Hs : _source (mark_end self) = a ++ String d ds ++ rest)
    by (rewrite mark_end_source; exact Hsource).
  assert (Hc : _cur_pos (mark_end self) = len a)
    by (rewrite mark_end_cur_pos; exact Hcursor).
  split; [|split].
  - intros Hdot. eexists. split.
    + apply next_of_token; [exact Hlive|].
      rewrite Hcur, get_next_token_digit by exact Hd.
      rewrite (get_number_integer _ a d ds rest) by assumption. reflexivity.
    + simpl. lia.
  - intros f fs rest' Hrest Hf Hfs Hend. eexists. split.
    + apply next_of_token; [exact Hlive|].
      rewrite Hcur, get_next_token_digit by exact Hd.
      rewrite (get_number_decimal _ a d ds rest Hs Hc Hd Hds Hstop
                 _ Hrest f fs rest' eq_refl Hf Hfs Hend).
      reflexivity.
    + simpl. unfold len. rewrite str_length_app. simpl. lia.
  - intros tail Hrest Hbad. eexists.
    apply next_of_raise; [exact Hlive|].
    rewrite Hcur, get_next_token_digit by exact Hd.
    rewrite (get_number_malformed _ a d ds rest Hs Hc Hd Hds Hstop _ Hrest Hbad).
    reflexivity.
Qed.

Lemma C4_witness :
  exists self',
    __next__ (snd (__next__ (snd (__next__ (__init__ "7+12.50*x")))))
    = (Ok (mkToken "12.50" NUMBER), self') /\
    _cur_pos self' = 7.
Proof.
  apply (proj1 (proj2 (proj1 C4_number_rule
                         (snd (__next__ (snd (__next__ (__init__ "7+12.50*x")))))
                         "7+" "1"%char "2" ".50*x"
                         eq_refl eq_refl eq_refl eq_refl eq_refl eq_refl))
           "5"%char "0" "*x");
    reflexivity.
Defined.

(** C5: on a letter, [__next__] takes the letters and digits that follow;
    the token has the whole lexeme as its text, and its kind is the keyword
    whose name is exactly the lexeme, or IDENT when no keyword has that name.
    So [IF] is the keyword, while [IFX], which only starts with it, and [if],
    in the other case, are identifiers. *)
Theorem C5_keyword_or_identifier :
  (forall self a c w rest,
     _at_end self = false ->
     _source self = a ++ String c w ++ rest ->
     _cur_pos self = len a ->
     isalpha c = true ->
     all_chars isalnum w = true ->
     isalnum (first_char rest) = false ->
     exists self',
       __next__ self = (Ok (mkToken (String c w) (ident_kind (String c w))), self') /\
       _cur_pos self' = len a + len (String c w)) /\
  (forall lexeme kind,
     is_keyword kind = true -> name kind = lexeme -> ident_kind lexeme = kind) /\
  (forall lexeme,
     (forall kind, is_keyword kind = true -> name kind <> lexeme) ->
     ident_kind lexeme = IDENT) /\
  tokenize "IF" = ([mkToken "IF" IF; EOF_token], Exhausted) /\
  tokenize "IFX" = ([mkToken "IFX" IDENT; EOF_token], Exhausted) /\
  tokenize "if" = ([mkToken "if" IDENT; EOF_token], Exhausted).
Proof.
  split; [|split; [|split; [|split; [|split]; vm_compute; reflexivity]]].
  - intros self a c w rest Hlive Hsource Hcursor Hc Hw Hstop.
    assert (Hcur : cur_char_of self = c)
      by (rewrite (cur_char_at self a (String c w ++ rest)); auto).
    eexists. split.
    + apply next_of_token; [exact Hlive|].
      rewrite Hcur, get_next_token_alpha by exact Hc.
      rewrite (get_ident_or_keyword_word _ a c w rest); auto.
      * rewrite mark_end_source. exact Hsource.
      * rewrite mark_end_cur_pos. exact Hcursor.
    + simpl. lia.
  - intros lexeme kind Hk Hn. unfold ident_kind.
    rewrite (proj2 (check_if_keyword_spec lexeme kind)); auto.
  - intros lexeme H. unfold ident_kind.
    rewrite (proj2 (check_if_keyword_none lexeme)); auto.
Qed.

Lemma C5_witness :
  exists self',
    __next__ (__init__ "WHILE1<2") = (Ok (mkToken "WHILE1" IDENT), self') /\
    _cur_pos self' = 6.
Proof.
  apply (proj1 C5_keyword_or_identifier (__init__ "WHILE1<2")
           EmptyString "W"%char "HILE1" "<2");
    reflexivity.
Defined.

(** C6: the input with blanks around and between [1 + 1] gives the same
    tokens as [1+1], and the input with a one-line comment the same tokens as
    the input without it. *)
Theorem C6_whitespace_and_comments_do_not_show :
  tokenize "  1 + 1  " = tokenize "1+1" /\
  tokenize "1 /*c*/ + 1" = tokenize "1 + 1" /\
  tokenize "1+1"
  = ([mkToken "1" NUMBER; mkToken "+" PLUS; mkToken "1" NUMBER; EOF_token],
     Exhausted).
Proof. split; [|split]; vm_compute; reflexivity. Qed.

(** C7: the two end-to-end token sequences of the specification, each closed
    by the EOF token, after which the iterator is exhausted. *)
Theorem C7_end_to_end :
  tokenize "+ * -567.98"
  = ([mkToken "+" PLUS; mkToken "*" STAR; mkToken "-" MINUS;
      mkToken "567.98" NUMBER; EOF_token], Exhausted) /\
  tokenize ("LABEL" ++ newline ++ "GOTO")
  = ([mkToken "LABEL" LABEL; mkToken newline NEWLINE; mkToken "GOTO" GOTO;
      EOF_token], Exhausted).
Proof. split; vm_compute; reflexivity. Qed.

(** C8: a call of [__next__] that returns a token leaves the cursor at least
    one position further; no call, however it ends, moves the cursor back,
    lowers the end flag or changes the source; and so it stays over any
    number of calls. *)
Theorem C8_cursor_only_increases :
  (forall self token self',
     __next__ self = (Ok token, self') -> _cur_pos self < _cur_pos self') /\
  (forall self r self',
     __next__ self = (r, self') ->
     _source self' = _source self /\
     _cur_pos self <= _cur_pos self' /\
     (_at_end self = true -> _at_end self' = true)) /\
  (forall self self',
     reaches self self' ->
     _source self' = _source self /\
     _cur_pos self <= _cur_pos self' /\
     (_at_end self = true -> _at_end self' = true)).
Proof.
  split; [exact next_advances|]. split; [|exact reaches_effect].
  intros self r self' H. apply next_effect in H as (H1 & H2 & H3 & _). auto.
Qed.

Lemma C8_witness :
  _cur_pos (__init__ "12+3") < _cur_pos (snd (__next__ (__init__ "12+3"))).
Proof.
  apply (proj1 C8_cursor_only_increases (__init__ "12+3") (mkToken "12" NUMBER)).
  vm_compute. reflexivity.
Defined.

(** The dispatch on a carriage return: no rule takes it.  The property C9 of
    the carriage return rests on the lemmas on string literals and stands
    at the end, under the heading of the carriage return. *)
Lemma get_next_token_CR (self : TokenGenerator) :
  _get_next_token CR self = (Raise (UnrecognizedCharacter CR), self).
Proof.
  rewrite get_next_token_other; try reflexivity; discriminate.
Qed.

(** C10: on one line, comment removal deletes everything from the first
    opening of a comment to the last close, whatever lies between, further
    comments and the text between them included; so the line with [+]
    between two comments is left as [12] and gives one NUMBER token, then
    EOF. *)
Theorem C10_comment_removal_is_greedy :
  (forall pre mid post,
     has "/*" pre = false ->
     occurrences LF mid = 0 ->
     has "*/" post = false ->
     _remove_comments (pre ++ "/*" ++ mid ++ "*/" ++ post) = pre ++ post) /\
  (forall pre mid post,
     has "/*" pre = false ->
     occurrences LF mid = 0 ->
     has "*/" (line_of post) = false ->
     _remove_comments (pre ++ "/*" ++ mid ++ "*/" ++ post)
     = pre ++ _remove_comments post) /\
  _remove_comments "1/*a*/+/*b*/2" = "12" /\
  _source (__init__ "1/*a*/+/*b*/2") = "12" /\
  tokenize "1/*a*/+/*b*/2" = ([mkToken "12" NUMBER; EOF_token], Exhausted).
Proof.
  split; [exact remove_comments_line|].
  split; [exact remove_comments_greedy|].
  split; [|split]; vm_compute; reflexivity.
Qed.

Lemma C10_witness :
  _remove_comments ("1" ++ "/*" ++ "a*/+/*b" ++ "*/" ++ "2") = "1" ++ "2".
Proof.
  apply (proj1 C10_comment_removal_is_greedy "1" "a*/+/*b" "2"); reflexivity.
Defined.

(** ** Further properties of the code *)

(** *** String literals *)

Section StringRule.

Variable c : ascii.

Lemma find_at_skip (a s : string) (i k : nat) :
  find_at c i (a ++ s) (len a + k) = find_at c (i + len a) s k.
Proof.
  revert i; induction a as [|x a IH]; intros i; simpl.
  - rewrite Nat.add_0_r. reflexivity.
  - rewrite IH. f_equal. unfold len. lia.
Qed.

Lemma find_at_first (body rest : string) (i : nat) :
  occurrences c body = 0 ->
  find_at c i (body ++ String c rest) 0 = Z.of_nat (i + len body).
Proof.
  revert i; induction body as [|x body IH]; intros i H; simpl in *.
  - rewrite Ascii.eqb_refl. f_equal. lia.
  - destruct (Ascii.eqb x c); [discriminate|].
    rewrite IH by exact H. f_equal. unfold len. lia.
Qed.

Lemma find_at_absent (s : string) (i : nat) :
  occurrences c s = 0 -> find_at c i s 0 = (-1)%Z.
Proof.
  revert i; induction s as [|x s IH]; intros i H; simpl in *; [reflexivity|].
  destruct (Ascii.eqb x c); [discriminate | auto].
Qed.

End StringRule.

Section Slices.

Lemma substring_but_last (s : string) :
  substring 0 (String.length s - 1) s = but_last s.
Proof.
  induction s as [|x s IH]; [reflexivity|].
  destruct s as [|y s]; [reflexivity|].
  transitivity (String x (substring 0 (String.length (String y s) - 1) (String y s))).
  - replace (String.length (String x (String y s)) - 1)
      with (S (String.length (String y s) - 1)) by (simpl; lia).
    reflexivity.
  - rewrite IH. reflexivity.
Qed.

(** The slice from a position to the bound -1: what lies between the
    position and the last character. *)
Lemma slice_to_last (a tail : string) :
  a <> EmptyString ->
  slice (a ++ tail) (Z.of_nat (len a)) (-1) = but_last tail.
Proof.
  intros Ha. unfold slice, clamp, len. rewrite str_length_app.
  assert (0 < String.length a) by (destruct a; [congruence | simpl; lia]).
  destruct (Z.ltb_spec (Z.of_nat (String.length a)) 0); [lia|].
  change (-1 <? 0)%Z with true. cbv iota.
  rewrite Z.min_l, Z.max_r by lia. rewrite Nat2Z.id, substring_skip.
  replace (Z.to_nat (-1 + Z.of_nat (String.length a + String.length tail)
                     - Z.of_nat (String.length a)))
    with (String.length tail - 1) by lia.
  apply substring_but_last.
Qed.

(** A slice with bounds in the string, as a substring. *)
Lemma slice_in_range (s : string) (lo hi : nat) :
  lo <= hi -> hi <= len s ->
  slice s (Z.of_nat lo) (Z.of_nat hi) = substring lo (hi - lo) s.
Proof.
  intros H1 H2. unfold slice, clamp. unfold len in *.
  destruct (Z.ltb_spec (Z.of_nat lo) 0); [lia|].
  destruct (Z.ltb_spec (Z.of_nat hi) 0); [lia|].
  rewrite !Z.min_l by lia. rewrite Nat2Z.id. f_equal. lia.
Qed.

End Slices.

Section QuoteAtCursor.

Variables (self : TokenGenerator) (a tail : string).
Hypothesis Hsource : _source self = a ++ dquote ++ tail.
Hypothesis Hcursor : _cur_pos self = len a.

(** The dispatch on a double quote comes down to the string rule. *)
Lemma get_next_token_quote (s : TokenGenerator) :
  _get_next_token DQUOTE s =
    match _get_string DQUOTE s with
    | (Ok (Some token), s') => (Ok token, s')
    | (Ok None, s') => first_token [_is_operator] DQUOTE s'
    | (Raise e, s') => (Raise e, s')
    end.
Proof.
  unfold _get_next_token, lexing_strats. cbn [first_token]. unfold bind.
  rewrite get_number_none, get_ident_none, get_EOF_none, get_newlines_none
    by (reflexivity || discriminate).
  destruct (_get_string DQUOTE s) as [[[token|]|e] s']; reflexivity.
Qed.

Lemma get_string_closed (body rest : string) :
  tail = body ++ dquote ++ rest ->
  occurrences DQUOTE body = 0 ->
  _get_string DQUOTE self =
    (Ok (Some (mkToken body STRING)), set_cur_pos (len a + (len body + 1)) self).
Proof.
  intros Htail Hbody. unfold _get_string, bind, gets, advance, modify, ret, id.
  cbv iota beta. simpl (Ascii.eqb DQUOTE DQUOTE). cbv iota beta.
  rewrite Hsource, Hcursor, Htail. unfold find.
  replace (a ++ dquote ++ body ++ dquote ++ rest)
    with ((a ++ dquote) ++ body ++ String DQUOTE rest) by str_normal.
  replace (len a + 1) with (len (a ++ dquote) + 0)
    by (unfold len; rewrite str_length_app; simpl; lia).
  rewrite find_at_skip, find_at_first by exact Hbody.
  replace (Z.of_nat (0 + len (a ++ dquote) + len body))
    with (Z.of_nat (len (a ++ dquote) + len body)) by lia.
  rewrite Nat.add_0_r, slice_span. reflexivity.
Qed.

Lemma get_string_open :
  occurrences DQUOTE tail = 0 ->
  _get_string DQUOTE self =
    (Ok (Some (mkToken (but_last tail) STRING)),
     set_cur_pos (len a + (len (but_last tail) + 1)) self).
Proof.
  intros Htail. unfold _get_string, bind, gets, advance, modify, ret, id.
  cbv iota beta. simpl (Ascii.eqb DQUOTE DQUOTE). cbv iota beta.
  rewrite Hsource, Hcursor. unfold find.
  replace (a ++ dquote ++ tail) with ((a ++ dquote) ++ tail) by str_normal.
  replace (len a + 1) with (len (a ++ dquote) + 0)
    by (unfold len; rewrite str_length_app; simpl; lia).
  rewrite find_at_skip, find_at_absent by exact Htail.
  rewrite Nat.add_0_r, slice_to_last; [reflexivity|].
  destruct a; discriminate.
Qed.

End QuoteAtCursor.

Lemma length_but_last (s : string) : len (but_last s) = len s - 1.
Proof.
  induction s as [|x s IH]; [reflexivity|].
  destruct s as [|y s]; [reflexivity|].
  change (len (but_last (String x (String y s))))
    with (S (len (but_last (String y s)))).
  rewrite IH. simpl. lia.
Qed.

(** X1: a double quote at the cursor with a closing double quote behind it
    gives one STRING token whose text is what stands between the two, and
    the cursor is left behind the closing quote. *)
Theorem X1_string_literal :
  forall self a body rest,
    _at_end self = false ->
    _source self = a ++ dquote ++ body ++ dquote ++ rest ->
    _cur_pos self = len a ->
    occurrences DQUOTE body = 0 ->
    exists self',
      __next__ self = (Ok (mkToken body STRING), self') /\
      _cur_pos self' = len a + len body + 2.
Proof.
  intros self a body rest Hlive Hsource Hcursor Hbody.
  assert (Hcur : cur_char_of self = DQUOTE)
    by (rewrite (cur_char_at self a (dquote ++ body ++ dquote ++ rest)); auto).
  eexists. split.
  - apply next_of_token; [exact Hlive|].
    rewrite Hcur, get_next_token_quote.
    rewrite (get_string_closed _ a (body ++ dquote ++ rest)) with (body := body)
                                                                  (rest := rest);
      try reflexivity; try assumption.
    + rewrite mark_end_source. exact Hsource.
    + rewrite mark_end_cur_pos. exact Hcursor.
  - simpl. lia.
Qed.

Lemma X1_witness :
  exists self',
    __next__ (snd (__next__ (__init__ ("PRINT" ++ dquote ++ "a  b" ++ dquote ++ "+1"))))
    = (Ok (mkToken "a  b" STRING), self') /\
    _cur_pos self' = 11.
Proof.
  apply (X1_string_literal
           (snd (__next__ (__init__ ("PRINT" ++ dquote ++ "a  b" ++ dquote ++ "+1"))))
           "PRINT" "a  b" "+1");
    reflexivity.
Defined.

(** X2: a double quote at the cursor with no double quote behind it raises
    nothing: the token is a STRING token whose text is the rest of the source
    without its last character, and the cursor is left at or behind the end
    of the source, so that nothing of the source is read after it. *)
Theorem X2_unterminated_string_takes_the_rest :
  forall self a tail,
    _at_end self = false ->
    _source self = a ++ dquote ++ tail ->
    _cur_pos self = len a ->
    occurrences DQUOTE tail = 0 ->
    exists self',
      __next__ self = (Ok (mkToken (but_last tail) STRING), self') /\
      len (_source self') <= _cur_pos self'.
Proof.
  intros self a tail Hlive Hsource Hcursor Htail.
  assert (Hcur : cur_char_of self = DQUOTE)
    by (rewrite (cur_char_at self a (dquote ++ tail)); auto).
  eexists. split.
  - apply next_of_token; [exact Hlive|].
    rewrite Hcur, get_next_token_quote.
    rewrite (get_string_open _ a tail); try reflexivity; try assumption.
    + rewrite mark_end_source. exact Hsource.
    + rewrite mark_end_cur_pos. exact Hcursor.
  - simpl. rewrite mark_end_source, Hsource, length_but_last.
    unfold len. rewrite str_length_app. simpl. lia.
Qed.

Lemma X2_witness :
  exists self',
    __next__ (snd (__next__ (__init__ ("PRINT" ++ dquote ++ "hello+1"))))
    = (Ok (mkToken "hello+" STRING), self') /\
    len (_source self') <= _cur_pos self'.
Proof.
  apply (X2_unterminated_string_takes_the_rest
           (snd (__next__ (__init__ ("PRINT" ++ dquote ++ "hello+1"))))
           "PRINT" "hello+1");
    reflexivity.
Defined.

(** *** Tokens of one character *)

(** The one-character keys of the table. *)
Lemma one_char_keys (c : ascii) (kind : TokenType) :
  dict_get TOKEN_TYPES (str1 c) = Some kind ->
  isdigit c = false /\ isalpha c = false /\ c <> NUL /\ c <> LF /\ c <> DQUOTE.
Proof.
  unfold TOKEN_TYPES, str1. cbn [dict_get String.eqb].
  destruct (Ascii.eqb_spec "+" c) as [<-|]; [intros _; repeat split; discriminate|].
  destruct (Ascii.eqb_spec "-" c) as [<-|]; [intros _; repeat split; discriminate|].
  destruct (Ascii.eqb_spec "*" c) as [<-|]; [intros _; repeat split; discriminate|].
  destruct (Ascii.eqb_spec "/" c) as [<-|]; [intros _; repeat split; discriminate|].
  destruct (Ascii.eqb_spec "<" c) as [<-|]; [intros _; repeat split; discriminate|].
  destruct (Ascii.eqb_spec ">" c) as [<-|]; [intros _; repeat split; discriminate|].
  destruct (Ascii.eqb_spec "=" c) as [<-|]; [intros _; repeat split; discriminate|].
  destruct (Ascii.eqb "!" c); discriminate.
Qed.

Lemma is_operator_one (c : ascii) (self : TokenGenerator) (kind : TokenType) :
  dict_get TOKEN_TYPES (str1 c ++ str1 (_peek self)) = None ->
  dict_get TOKEN_TYPES (str1 c) = Some kind ->
  _is_operator c self = (Ok (Some (mkToken (str1 c) kind)), self).
Proof.
  intros H2 H1. unfold _is_operator, bind, gets. rewrite H2, H1. reflexivity.
Qed.

Lemma is_operator_neither (c : ascii) (self : TokenGenerator) :
  dict_get TOKEN_TYPES (str1 c ++ str1 (_peek self)) = None ->
  dict_get TOKEN_TYPES (str1 c) = None ->
  _is_operator c self = (Ok None, self).
Proof.
  intros H2 H1. unfold _is_operator, bind, gets. rewrite H2, H1. reflexivity.
Qed.

(** X3: a character that is a key of the operator table, with a lookahead
    that does not make a two-character key of it, gives the token of the
    one-character key; a line feed gives the NEWLINE token.  Either way the
    cursor moves by one. *)
Theorem X3_one_character_tokens :
  (forall self c kind,
     _at_end self = false ->
     getitem (_source self) (_cur_pos self) = Some c ->
     dict_get TOKEN_TYPES (str1 c ++ str1 (_peek self)) = None ->
     dict_get TOKEN_TYPES (str1 c) = Some kind ->
     exists self',
       __next__ self = (Ok (mkToken (str1 c) kind), self') /\
       _cur_pos self' = _cur_pos self + 1) /\
  (forall self,
     _at_end self = false ->
     getitem (_source self) (_cur_pos self) = Some LF ->
     exists self',
       __next__ self = (Ok (mkToken newline NEWLINE), self') /\
       _cur_pos self' = _cur_pos self + 1).
Proof.
  split.
  - intros self c kind Hlive Hget H2 H1.
    assert (Hcur : cur_char_of self = c)
      by (unfold cur_char_of; rewrite Hget; reflexivity).
    destruct (one_char_keys _ _ H1) as (K1 & K2 & K3 & K4 & K5).
    exists (finish (mark_end self)). split; [|simpl; rewrite mark_end_cur_pos; lia].
    apply next_of_token; [exact Hlive|]. rewrite Hcur.
    rewrite get_next_token_other by assumption.
    rewrite <- peek_mark_end in H2.
    rewrite (is_operator_one _ _ _ H2 H1). reflexivity.
  - intros self Hlive Hget.
    assert (Hcur : cur_char_of self = LF)
      by (unfold cur_char_of; rewrite Hget; reflexivity).
    exists (finish (mark_end self)). split; [|simpl; rewrite mark_end_cur_pos; lia].
    apply next_of_token; [exact Hlive|]. rewrite Hcur. reflexivity.
Qed.

Lemma X3_witness :
  exists self',
    __next__ (__init__ "<>") = (Ok (mkToken "<" LT), self') /\
    _cur_pos self' = 1.
Proof.
  apply (proj1 X3_one_character_tokens (__init__ "<>") "<"%char LT); reflexivity.
Defined.

(** *** The strategies, case by case *)

Section Cases.

Variables (c : ascii) (self : TokenGenerator).

(** The number rule on a digit: the digits, then either no dot, or a dot
    with digits, or a dot without. *)
Lemma get_number_cases :
  isdigit c = true ->
  _get_number c self =
    let s1 := scan isdigit self in
    if Ascii.eqb (_peek s1) "." then
      let s2 := set_cur_pos (_cur_pos s1 + 1) s1 in
      if isdigit (_peek s2) then
        let s3 := scan isdigit s2 in
        (Ok (Some (mkToken (slice (_source s3) (Z.of_nat (_cur_pos self))
                              (Z.of_nat (_cur_pos s3 + 1))) NUMBER)), s3)
      else (Raise MalformedNumber, s2)
    else
      (Ok (Some (mkToken (slice (_source s1) (Z.of_nat (_cur_pos self))
                            (Z.of_nat (_cur_pos s1 + 1))) NUMBER)), s1).
Proof.
  intros Hc. unfold _get_number. rewrite Hc.
  unfold bind, gets, while_peek, advance, modify, ret, raise, id, scan.
  cbv beta iota zeta.
  destruct (Ascii.eqb (_peek (while_peek_fuel isdigit (len (_source self)) self)) ".");
    [|reflexivity].
  cbv beta iota.
  match goal with
  | |- context [negb (isdigit ?x)] => destruct (isdigit x)
  end; reflexivity.
Qed.

Lemma get_ident_or_keyword_cases :
  isalpha c = true ->
  _get_ident_or_keyword c self =
    let s1 := scan isalnum self in
    let tok_text :=
      slice (_source s1) (Z.of_nat (_cur_pos self)) (Z.of_nat (_cur_pos s1 + 1)) in
    (Ok (Some (mkToken tok_text (ident_kind tok_text))), s1).
Proof.
  intros Hc. unfold _get_ident_or_keyword. rewrite Hc.
  unfold bind, gets, while_peek, modify, ret, id, scan, ident_kind.
  cbv beta iota zeta.
  match goal with
  | |- context [check_if_keyword ?x] => destruct (check_if_keyword x)
  end; reflexivity.
Qed.

Lemma get_string_cases :
  _get_string DQUOTE self =
    let string_token :=
      slice (_source self) (Z.of_nat (_cur_pos self + 1))
        (find (_source self) DQUOTE (_cur_pos self + 1)) in
    (Ok (Some (mkToken string_token STRING)),
     set_cur_pos (_cur_pos self + (len string_token + 1)) self).
Proof. reflexivity. Qed.

End Cases.

(** *** After an error *)

Section Stuck.

Lemma no_rule_parts (c d : ascii) :
  no_rule c d = true ->
  isdigit c = false /\ isalpha c = false /\ c <> NUL /\ c <> LF /\ c <> DQUOTE /\
  dict_get TOKEN_TYPES (str1 c ++ str1 d) = None /\
  dict_get TOKEN_TYPES (str1 c) = None.
Proof.
  unfold no_rule. intros H.
  repeat (apply andb_prop in H as [H ?]).
  repeat match goal with
         | K : negb _ = true |- _ => apply negb_true_iff in K
         | K : Ascii.eqb _ _ = false |- _ => apply Ascii.eqb_neq in K
         | K : is_none ?o = true |- _ => destruct o; [discriminate K | clear K]
         end.
  auto 10.
Qed.

Lemma no_rule_raises (c : ascii) (self : TokenGenerator) :
  no_rule c (_peek self) = true ->
  _get_next_token c self = (Raise (UnrecognizedCharacter c), self).
Proof.
  intros H. apply no_rule_parts in H as (H1 & H2 & H3 & H4 & H5 & H6 & H7).
  rewrite get_next_token_other by assumption.
  rewrite is_operator_neither by assumption. reflexivity.
Qed.

Lemma cur_char_mark_end (self : TokenGenerator) :
  cur_char_of (mark_end self) = cur_char_of self.
Proof. unfold cur_char_of. rewrite mark_end_source, mark_end_cur_pos. reflexivity. Qed.

(** A generator that is stuck stays stuck: a call raises and leaves the
    cursor. *)
Lemma next_stuck (self : TokenGenerator) :
  stuck self ->
  (exists e, fst (__next__ self) = Raise e) /\
  stuck (snd (__next__ self)) /\
  _cur_pos (snd (__next__ self)) = _cur_pos self.
Proof.
  intros H. destruct (_at_end self) eqn:Hend.
  - rewrite next_at_end by exact Hend. simpl. eauto.
  - rewrite next_unfold by exact Hend.
    rewrite no_rule_raises by (rewrite peek_mark_end; exact H). simpl.
    split; [eauto|]. split; [|apply mark_end_cur_pos].
    unfold stuck. rewrite cur_char_mark_end, peek_mark_end. exact H.
Qed.

(** The dispatch raises only where it leaves the generator stuck. *)
Lemma get_next_token_raise_stuck (s : TokenGenerator) (e : exn) (s' : TokenGenerator) :
  _get_next_token (cur_char_of s) s = (Raise e, s') -> stuck s'.
Proof.
  set (c := cur_char_of s).
  destruct (isdigit c) eqn:Hd.
  - rewrite get_next_token_digit, get_number_cases by exact Hd. cbv zeta.
    destruct (Ascii.eqb_spec (_peek (scan isdigit s)) ".") as [Hdot|];
      cbv beta iota; [|discriminate].
    match goal with
    | |- context [if isdigit ?x then _ else _] => destruct (isdigit x) eqn:Hafter
    end; cbv beta iota; [discriminate|].
    intros [= _ <-]. unfold stuck.
    replace (cur_char_of (set_cur_pos (_cur_pos (scan isdigit s) + 1) (scan isdigit s)))
      with "."%char by (rewrite <- Hdot; reflexivity).
    reflexivity.
  - destruct (isalpha c) eqn:Ha.
    + rewrite get_next_token_alpha, get_ident_or_keyword_cases by exact Ha.
      cbv beta iota zeta. discriminate.
    + destruct (Ascii.eqb_spec c NUL) as [->|Hn];
        [rewrite get_next_token_NUL; discriminate|].
      destruct (Ascii.eqb_spec c LF) as [->|Hl]; [discriminate|].
      destruct (Ascii.eqb_spec c DQUOTE) as [->|Hq].
      * rewrite get_next_token_quote, get_string_cases.
        cbv beta iota zeta. discriminate.
      * rewrite get_next_token_other by assumption.
        unfold _is_operator, bind, gets.
        destruct (dict_get TOKEN_TYPES (str1 c ++ str1 (_peek s))) eqn:H2;
          [discriminate|].
        destruct (dict_get TOKEN_TYPES (str1 c)) eqn:H1; [discriminate|].
        intros [= _ <-]. unfold stuck, no_rule. fold c.
        rewrite Hd, Ha, H2, H1.
        destruct (Ascii.eqb_spec c NUL); [contradiction|].
        destruct (Ascii.eqb_spec c LF); [contradiction|].
        destruct (Ascii.eqb_spec c DQUOTE); [contradiction|].
        reflexivity.
Qed.

Lemma after_calls_stuck (n : nat) :
  forall self, stuck self -> stuck (after_calls n self).
Proof.
  induction n as [|n IH]; intros self H; [exact H|].
  simpl. apply IH. apply next_stuck. exact H.
Qed.

End Stuck.

(** X4: an error is permanent.  Once a call of [__next__] has raised a
    [ValueError] (a malformed number or an unrecognized character), every
    later call raises an exception again and no call moves the cursor: the
    generator never skips the offending character. *)
Theorem X4_errors_are_permanent :
  forall self msg self',
    __next__ self = (Raise (ValueError msg), self') ->
    forall n,
      (exists e, fst (__next__ (after_calls n self')) = Raise e) /\
      _cur_pos (after_calls n self') = _cur_pos self'.
Proof.
  intros self msg self' H.
  assert (Hstuck : stuck self').
  { destruct (_at_end self) eqn:Hend.
    - rewrite next_at_end in H by exact Hend. discriminate H.
    - rewrite next_unfold in H by exact Hend.
      rewrite <- cur_char_mark_end in H.
      destruct (_get_next_token (cur_char_of (mark_end self)) (mark_end self))
        as [[token|e] mid] eqn:E; [discriminate H|].
      injection H as _ <-. exact (get_next_token_raise_stuck _ _ _ E). }
  clear H. revert self' Hstuck.
  intros self' Hstuck n. revert self' Hstuck.
  induction n as [|n IH]; intros self' Hstuck.
  - split; [apply next_stuck; exact Hstuck | reflexivity].
  - destruct (next_stuck _ Hstuck) as (_ & Hs & Hc).
    destruct (IH _ Hs) as [IH1 IH2].
    split; [exact IH1 | simpl; congruence].
Qed.

Lemma X4_witness :
  (exists e, fst (__next__ (after_calls 3 (snd (__next__ (__init__ "12.+3"))))) = Raise e) /\
  _cur_pos (after_calls 3 (snd (__next__ (__init__ "12.+3"))))
  = _cur_pos (snd (__next__ (__init__ "12.+3"))).
Proof.
  apply (X4_errors_are_permanent (__init__ "12.+3") "Illegal character in number!").
  reflexivity.
Defined.

(** *** The texts of the tokens are the source *)

Section Lexemes.

Lemma substring_one (s : string) (i : nat) (c : ascii) :
  String.get i s = Some c -> substring i 1 s = str1 c.
Proof.
  revert i; induction s as [|x s IH]; intros i H; [discriminate|].
  destruct i; simpl in *.
  - injection H as ->. destruct s; reflexivity.
  - apply IH. exact H.
Qed.

Lemma substring_two (s : string) (i : nat) (c d : ascii) :
  String.get i s = Some c -> String.get (i + 1) s = Some d ->
  substring i 2 s = String c (str1 d).
Proof.
  revert i; induction s as [|x s IH]; intros i H1 H2; [discriminate|].
  destruct i; simpl in *.
  - injection H1 as ->. f_equal.
    change (substring 0 1 s = str1 d). apply substring_one. exact H2.
  - apply IH; assumption.
Qed.

Lemma substring_drop (s : string) :
  forall i n, substring i n s ++ drop (i + n) s = drop i s.
Proof.
  induction s as [|x s IH]; intros i n.
  - destruct i, n; reflexivity.
  - destruct i as [|i].
    + destruct n as [|n]; [reflexivity|].
      simpl. f_equal. apply (IH 0 n).
    + simpl. apply IH.
Qed.

Lemma drop_beyond (s : string) (i : nat) : String.length s <= i -> drop i s = EmptyString.
Proof.
  revert i; induction s as [|x s IH]; intros i H; [destruct i; reflexivity|].
  destruct i; simpl in *; [lia|]. apply IH. lia.
Qed.

Lemma get_not_occurring (c0 : ascii) (s : string) (i : nat) (c : ascii) :
  occurrences c0 s = 0 -> String.get i s = Some c -> c <> c0.
Proof.
  revert i; induction s as [|x s IH]; intros i H G; [discriminate|].
  simpl in H. destruct (Ascii.eqb_spec x c0) as [|Hx]; [discriminate|].
  destruct i; simpl in G; [congruence | eauto].
Qed.

(** A lookahead other than the null character is a character of the
    source. *)
Lemma peek_in_range (self : TokenGenerator) :
  _peek self <> NUL -> _cur_pos self + 1 < len (_source self).
Proof.
  unfold _peek, getitem. intros H.
  destruct (String.get (_cur_pos self + 1) (_source self)) eqn:G; [|congruence].
  apply get_some_within in G. exact G.
Qed.

(** A loop that the null character ends leaves the cursor on a character of
    the source. *)
Lemma scan_in_range (p : ascii -> bool) (fuel : nat) :
  p NUL = false ->
  forall self,
    _cur_pos self < len (_source self) ->
    _cur_pos (while_peek_fuel p fuel self) < len (_source self).
Proof.
  intros Hp. induction fuel as [|fuel IH]; intros self H; [exact H|].
  simpl. destruct (p (_peek self)) eqn:E; [|exact H].
  apply (IH (set_cur_pos (_cur_pos self + 1) self)). simpl.
  apply peek_in_range. intros Hn. congruence.
Qed.

Lemma scan_lexeme (p : ascii -> bool) (s0 s : TokenGenerator) (kind : TokenType) :
  p NUL = false ->
  _source s = _source s0 ->
  _cur_pos s0 <= _cur_pos s ->
  _cur_pos s < len (_source s0) ->
  lexeme_of s0
    (mkToken (slice (_source (scan p s)) (Z.of_nat (_cur_pos s0))
                (Z.of_nat (_cur_pos (scan p s) + 1))) kind)
    (scan p s).
Proof.
  intros Hp Hs Hle Hin. unfold scan.
  destruct (while_peek_fuel_moved p (len (_source s)) s) as (M1 & _ & _ & M4).
  pose proof (scan_in_range p (len (_source s)) Hp s) as R.
  rewrite Hs in R. specialize (R Hin). rewrite Hs in *.
  unfold lexeme_of. cbn [text]. rewrite M1.
  split; [reflexivity|]. split; [lia|]. split; [exact R|].
  rewrite slice_in_range by lia. reflexivity.
Qed.

(** What the dispatch finds on a character of the source, other than a
    double quote, is the text of the source from the cursor on. *)
Lemma get_next_token_lexeme (s : TokenGenerator) (c : ascii) (token : Token)
      (mid : TokenGenerator) :
  getitem (_source s) (_cur_pos s) = Some c ->
  c <> NUL -> c <> DQUOTE ->
  _get_next_token c s = (Ok token, mid) ->
  lexeme_of s token mid.
Proof.
  intros Hget Hn Hq. unfold getitem in Hget.
  pose proof (get_some_within _ _ _ Hget) as Hin.
  destruct (isdigit c) eqn:Hd.
  - rewrite get_next_token_digit, get_number_cases by exact Hd. cbv zeta.
    destruct (Ascii.eqb_spec (_peek (scan isdigit s)) ".") as [Hdot|];
      cbv beta iota.
    + match goal with
      | |- context [if isdigit ?x then _ else _] => destruct (isdigit x)
      end; cbv beta iota; [|discriminate].
      intros [= <- <-].
      destruct (scan_lexeme isdigit s s NUMBER eq_refl eq_refl (le_n _) Hin)
        as (L1 & L2 & L3 & _).
      apply scan_lexeme; simpl; try reflexivity; try assumption; try lia.
      rewrite <- L1. apply peek_in_range. rewrite Hdot. discriminate.
    + intros [= <- <-]. apply scan_lexeme; auto.
  - destruct (isalpha c) eqn:Ha.
    + rewrite get_next_token_alpha, get_ident_or_keyword_cases by exact Ha.
      cbv beta iota zeta. intros [= <- <-].
      destruct (scan_lexeme isalnum s s IDENT eq_refl eq_refl (le_n _) Hin)
        as (L1 & L2 & L3 & L4).
      unfold lexeme_of. cbn [text] in *. auto.
    + destruct (Ascii.eqb_spec c LF) as [->|Hl].
      * intros [= <- <-]. unfold lexeme_of. cbn [text].
        split; [reflexivity|]. split; [lia|]. split; [exact Hin|].
        replace (_cur_pos s + 1 - _cur_pos s) with 1 by lia.
        symmetry. apply substring_one. exact Hget.
      * rewrite get_next_token_other by assumption.
        unfold _is_operator, bind, gets, advance, modify, ret.
        destruct (dict_get TOKEN_TYPES (str1 c ++ str1 (_peek s))) as [k2|] eqn:H2.
        -- intros [= <- <-]. apply two_char_keys in H2 as (Hp & _).
           assert (Hr : _cur_pos s + 1 < len (_source s))
             by (apply peek_in_range; rewrite Hp; discriminate).
           unfold lexeme_of. cbn [text]. simpl.
           split; [reflexivity|]. split; [lia|]. split; [exact Hr|].
           replace (_cur_pos s + 1 + 1 - _cur_pos s) with 2 by lia.
           symmetry. apply substring_two; [exact Hget|].
           unfold _peek, getitem in Hp |- *.
           destruct (String.get (_cur_pos s + 1) (_source s)) eqn:G;
             [reflexivity | discriminate Hp].
        -- destruct (dict_get TOKEN_TYPES (str1 c)) as [k1|]; [|discriminate].
           intros [= <- <-]. unfold lexeme_of. cbn [text].
           split; [reflexivity|]. split; [lia|]. split; [exact Hin|].
           replace (_cur_pos s + 1 - _cur_pos s) with 1 by lia.
           symmetry. apply substring_one. exact Hget.
Qed.

End Lexemes.

Section Lossless.

Lemma init_source_free (c : ascii) (input : string) :
  is_hspace c = false ->
  occurrences c input = 0 -> occurrences c (_source (__init__ input)) = 0.
Proof.
  intros Hc H. simpl.
  pose proof (remove_comments_no_new c (_remove_whitespace input)) as Hle.
  rewrite remove_whitespace_keeps in Hle by exact Hc. lia.
Qed.

Lemma init_in_step (input : string) :
  first_char (_source (__init__ input)) <> NUL -> in_step (__init__ input).
Proof.
  intros Hfirst. split; [reflexivity|].
  assert (Hcur : cur_char_of (__init__ input)
                 = first_char (_source (__init__ input))).
  { unfold cur_char_of, getitem. simpl _cur_pos.
    destruct (_source (__init__ input)); reflexivity. }
  rewrite Hcur. split; [discriminate | intros H; elim (Hfirst H)].
Qed.

(** A successful call on a character of the source: the text of the token
    is the source between the cursor before and the cursor after. *)
Lemma next_lexeme (self : TokenGenerator) (c : ascii) (token : Token)
      (self' : TokenGenerator) :
  getitem (_source self) (_cur_pos self) = Some c ->
  c <> NUL -> c <> DQUOTE ->
  __next__ self = (Ok token, self') ->
  text token
  = substring (_cur_pos self) (_cur_pos self' - _cur_pos self) (_source self) /\
  _cur_pos self < _cur_pos self' /\
  _source self' = _source self.
Proof.
  intros Hget Hn Hq H.
  destruct (_at_end self) eqn:Hend;
    [rewrite next_at_end in H by exact Hend; discriminate H|].
  rewrite next_unfold in H by exact Hend.
  assert (Hcur : cur_char_of self = c)
    by (unfold cur_char_of; rewrite Hget; reflexivity).
  rewrite Hcur in H.
  destruct (_get_next_token c (mark_end self)) as [[t|e] mid] eqn:E;
    [|discriminate H].
  injection H as <- <-.
  apply get_next_token_lexeme in E; try assumption.
  - destruct E as (L1 & L2 & L3 & L4).
    rewrite mark_end_source in L1, L3, L4. rewrite mark_end_cur_pos in L2, L4.
    simpl. split; [exact L4|]. split; [lia | exact L1].
  - rewrite mark_end_source, mark_end_cur_pos. exact Hget.
Qed.

(** From a generator in step on a source without null character and double
    quote: the texts of the tokens before the EOF token are the source from
    the cursor on; when a call fails, the texts of the tokens so far are
    the start of it. *)
Lemma collect_texts (fuel : nat) :
  forall self,
    in_step self ->
    occurrences NUL (_source self) = 0 ->
    occurrences DQUOTE (_source self) = 0 ->
    match collect fuel self with
    | (tokens, Exhausted) =>
        exists body,
          tokens = (body ++ [EOF_token])%list /\
          texts body = drop (_cur_pos self) (_source self)
    | (tokens, Failed _) =>
        exists rest, drop (_cur_pos self) (_source self) = texts tokens ++ rest
    | (_, OutOfFuel) => True
    end.
Proof.
  induction fuel as [|fuel IH]; intros self Hstep Hnul Hquote; [exact I|].
  simpl. destruct (__next__ self) as [[token|e] self'] eqn:E.
  - destruct (next_in_step _ _ _ Hstep E) as [(Hc & _ & Hstep')|(Hc & [= ->] & Hend)].
    + unfold cur_char_of in Hc.
      destruct (getitem (_source self) (_cur_pos self)) as [c|] eqn:G;
        [|contradiction].
      destruct (next_lexeme _ c _ _ G Hc (get_not_occurring _ _ _ _ Hquote G) E)
        as (Htext & Hlt & Hs).
      specialize (IH self' Hstep'). rewrite Hs in IH. specialize (IH Hnul Hquote).
      destruct (collect fuel self') as [tokens [| |]]; [| |exact I].
      * destruct IH as (body & -> & Hbody). exists (token :: body).
        split; [reflexivity|]. cbn [texts]. rewrite Hbody, Htext.
        replace (_cur_pos self') with (_cur_pos self + (_cur_pos self' - _cur_pos self))
          at 2 by lia.
        apply substring_drop.
      * destruct IH as (rest & Hrest). exists rest.
        cbn [texts]. rewrite str_app_assoc, <- Hrest, Htext.
        replace (_cur_pos self') with (_cur_pos self + (_cur_pos self' - _cur_pos self))
          at 2 by lia.
        symmetry. apply substring_drop.
    + destruct fuel as [|fuel]; [exact I|].
      simpl. rewrite next_at_end by exact Hend.
      exists []. split; [reflexivity|]. cbn [texts]. symmetry.
      apply drop_beyond. unfold cur_char_of, getitem in Hc.
      destruct (String.get (_cur_pos self) (_source self)) as [c|] eqn:G.
      * elim (get_not_occurring _ _ _ _ Hnul G Hc).
      * destruct (Nat.lt_ge_cases (_cur_pos self) (String.length (_source self)))
          as [Hlt|]; [|assumption].
        apply get_within in Hlt as [c Hc']. congruence.
  - destruct (next_in_step _ _ _ Hstep E) as [(_ & He)|(_ & [=] & _)].
    destruct e; [contradiction|].
    exists (drop (_cur_pos self) (_source self)). reflexivity.
Qed.

End Lossless.

(** X5: nothing of the source is lost or invented.  For an input without
    null character and double quote whose source is not empty: when the
    iteration is exhausted, the tokens are some tokens and then the EOF
    token, and the texts of those tokens, one behind the other, are the
    source; when a call raises, the texts of the tokens returned so far are
    the start of the source. *)
Theorem X5_texts_are_the_source :
  forall input,
    occurrences NUL input = 0 ->
    occurrences DQUOTE input = 0 ->
    _source (__init__ input) <> EmptyString ->
    match tokenize input with
    | (tokens, Exhausted) =>
        exists body,
          tokens = (body ++ [EOF_token])%list /\
          texts body = _source (__init__ input)
    | (tokens, Failed _) =>
        exists rest, _source (__init__ input) = texts tokens ++ rest
    | (_, OutOfFuel) => False
    end.
Proof.
  intros input Hnul Hquote Hne.
  pose proof (tokenize_ends input) as Hends.
  pose proof (init_source_free NUL input eq_refl Hnul) as Snul.
  pose proof (init_source_free DQUOTE input eq_refl Hquote) as Squote.
  assert (Hstep : in_step (__init__ input)).
  { apply init_in_step.
    destruct (_source (__init__ input)) as [|x src] eqn:E; [congruence|].
    simpl in *. destruct (Ascii.eqb_spec x NUL); [discriminate | assumption]. }
  unfold tokenize in *.
  pose proof (collect_texts (S (calls_left (__init__ input))) _ Hstep Snul Squote) as H.
  destruct (collect (S (calls_left (__init__ input))) (__init__ input))
    as [tokens [| |]]; auto.
Qed.

Lemma X5_witness :
  exists body,
    fst (tokenize "LET x1 = 3.5 /*c*/ <= y") = (body ++ [EOF_token])%list /\
    texts body = "LETx1=3.5<=y".
Proof.
  exact (X5_texts_are_the_source "LET x1 = 3.5 /*c*/ <= y" eq_refl eq_refl
           ltac:(discriminate)).
Defined.

(** *** Whitespace removal, exactly *)

Section Squeeze.

Let repl := fun x : Match => if truthy (group1 x) then EmptyString else group0 x.

Lemma span_len_app (p : ascii -> bool) (pre x : string) :
  p (first_char x) = false -> span_len p (pre ++ x) = span_len p pre.
Proof.
  intros Hx. induction pre as [|c pre IH]; simpl.
  - destruct x as [|y x]; [reflexivity|]. simpl in *. rewrite Hx. reflexivity.
  - destruct (p c); [rewrite IH|]; reflexivity.
Qed.

Lemma length_span (p : ascii -> bool) (s : string) :
  String.length (substring 0 (span_len p s) s) = span_len p s.
Proof.
  induction s as [|c s IH]; [reflexivity|].
  simpl. destruct (p c); [|reflexivity]. simpl. rewrite IH. reflexivity.
Qed.

Lemma whitespace_pattern_plain (c : ascii) (s : string) :
  c <> DQUOTE -> is_hspace c = false -> whitespace_pattern (String c s) = None.
Proof.
  intros Hq Hc. unfold whitespace_pattern.
  destruct (Ascii.eqb_spec c DQUOTE); [contradiction|]. rewrite Hc. reflexivity.
Qed.

(** Through text without double quote, the scan drops the horizontal
    whitespace and keeps the rest. *)
Lemma sub_from_squeeze (pre : string) :
  forall skip x,
    occurrences DQUOTE pre = 0 ->
    skip <= span_len is_hspace pre ->
    is_hspace (first_char x) = false ->
    sub_from whitespace_pattern repl skip (pre ++ x)
    = squeeze pre ++ sub_from whitespace_pattern repl 0 x.
Proof.
  induction pre as [|c pre IH]; intros skip x Hq Hskip Hx.
  - simpl in Hskip. replace skip with 0 by lia. reflexivity.
  - simpl in Hq. destruct (Ascii.eqb_spec c DQUOTE) as [|Hc]; [discriminate|].
    simpl in Hq.
    change (String c pre ++ x) with (String c (pre ++ x)).
    unfold squeeze. cbn [keep]. fold (squeeze pre).
    destruct skip as [|skip].
    + cbn [sub_from]. destruct (is_hspace c) eqn:Hh.
      * unfold whitespace_pattern at 1.
        destruct (Ascii.eqb_spec c DQUOTE); [contradiction|]. rewrite Hh.
        cbn [group0]. unfold len. rewrite length_span.
        cbn [span_len]. rewrite Hh. unfold repl at 1. cbn [group1 truthy substring].
        cbn [append]. apply IH; auto.
        rewrite span_len_app by exact Hx. lia.
      * rewrite whitespace_pattern_plain by assumption. cbn [negb append].
        f_equal. apply IH; auto. lia.
    + cbn [sub_from]. cbn [span_len] in Hskip.
      destruct (is_hspace c); [|lia]. cbn [negb]. apply IH; auto. lia.
Qed.

Lemma index_of_first (c : ascii) (body rest : string) :
  occurrences c body = 0 -> index_of c (body ++ String c rest) = Some (len body).
Proof.
  induction body as [|x body IH]; intros H; simpl in *.
  - rewrite Ascii.eqb_refl. reflexivity.
  - destruct (Ascii.eqb x c); [discriminate|]. rewrite IH by exact H. reflexivity.
Qed.

Lemma index_of_absent (c : ascii) (s : string) :
  occurrences c s = 0 -> index_of c s = None.
Proof.
  induction s as [|x s IH]; intros H; simpl in *; [reflexivity|].
  destruct (Ascii.eqb x c); [discriminate|]. rewrite IH by exact H. reflexivity.
Qed.

Lemma str_app_nil_r (a : string) : a ++ EmptyString = a.
Proof. induction a; simpl; congruence. Qed.

Lemma remove_whitespace_plain (input : string) :
  occurrences DQUOTE input = 0 -> _remove_whitespace input = squeeze input.
Proof.
  intros H. unfold _remove_whitespace, re_sub.
  rewrite <- (str_app_nil_r input) at 1.
  fold repl. rewrite sub_from_squeeze; try assumption; try lia; try reflexivity.
  apply str_app_nil_r.
Qed.

Lemma remove_whitespace_closed (pre body rest : string) :
  occurrences DQUOTE pre = 0 ->
  occurrences DQUOTE body = 0 ->
  _remove_whitespace (pre ++ dquote ++ body ++ dquote ++ rest)
  = squeeze pre ++ dquote ++ body ++ dquote ++ _remove_whitespace rest.
Proof.
  intros Hpre Hbody. unfold _remove_whitespace, re_sub. fold repl.
  rewrite sub_from_squeeze; try assumption; try lia; try reflexivity.
  f_equal.
  replace (dquote ++ body ++ dquote ++ rest)
    with (String DQUOTE (body ++ dquote) ++ rest) by str_normal.
  rewrite (sub_from_match _ _ _ _ _ (mkMatch (dquote ++ body ++ dquote) None)).
  - unfold repl at 1. cbn [group1 truthy group0]. str_normal.
  - replace (String DQUOTE (body ++ dquote) ++ rest)
      with (String DQUOTE (body ++ String DQUOTE rest)) by str_normal.
    unfold whitespace_pattern. rewrite Ascii.eqb_refl.
    rewrite index_of_first by exact Hbody. do 2 f_equal.
    replace (String DQUOTE (body ++ String DQUOTE rest))
      with ((dquote ++ body ++ dquote) ++ rest) by str_normal.
    replace (len body + 2) with (String.length (dquote ++ body ++ dquote)).
    + apply substring_take.
    + simpl. rewrite str_length_app. simpl. unfold len. lia.
  - reflexivity.
Qed.

Lemma remove_whitespace_open (pre rest : string) :
  occurrences DQUOTE pre = 0 ->
  occurrences DQUOTE rest = 0 ->
  _remove_whitespace (pre ++ dquote ++ rest)
  = squeeze pre ++ dquote ++ squeeze rest.
Proof.
  intros Hpre Hrest.
  rewrite <- (remove_whitespace_plain rest Hrest).
  unfold _remove_whitespace, re_sub. fold repl.
  rewrite sub_from_squeeze; try assumption; try lia; try reflexivity.
  f_equal. change (dquote ++ rest) with (String DQUOTE rest).
  rewrite sub_from_no_match; [reflexivity|].
  unfold whitespace_pattern. rewrite Ascii.eqb_refl.
  rewrite index_of_absent by exact Hrest. reflexivity.
Qed.

End Squeeze.

Lemma occurrences_keep (c : ascii) (p : ascii -> bool) (s : string) :
  occurrences c (keep p s) <= occurrences c s.
Proof.
  induction s as [|x s IH]; simpl; [lia|].
  destruct (p x); simpl; lia.
Qed.

Lemma keep_twice (p : ascii -> bool) (s : string) : keep p (keep p s) = keep p s.
Proof.
  induction s as [|x s IH]; [reflexivity|].
  simpl. destruct (p x) eqn:E; [|exact IH]. simpl. rewrite E, IH. reflexivity.
Qed.

(** X6: what whitespace removal does.  On text without double quote it
    drops the horizontal whitespace and nothing else; a string between two
    double quotes is copied as it stands, blanks included; behind a double
    quote that nothing closes the horizontal whitespace is dropped as
    anywhere else. *)
Theorem X6_whitespace_removal_exactly :
  (forall input,
     occurrences DQUOTE input = 0 -> _remove_whitespace input = squeeze input) /\
  (forall pre body rest,
     occurrences DQUOTE pre = 0 ->
     occurrences DQUOTE body = 0 ->
     _remove_whitespace (pre ++ dquote ++ body ++ dquote ++ rest)
     = squeeze pre ++ dquote ++ body ++ dquote ++ _remove_whitespace rest) /\
  (forall pre rest,
     occurrences DQUOTE pre = 0 ->
     occurrences DQUOTE rest = 0 ->
     _remove_whitespace (pre ++ dquote ++ rest)
     = squeeze pre ++ dquote ++ squeeze rest).
Proof.
  split; [exact remove_whitespace_plain|].
  split; [exact remove_whitespace_closed | exact remove_whitespace_open].
Qed.

Lemma X6_witness :
  _remove_whitespace ("PRINT  " ++ dquote ++ "a  b" ++ dquote ++ " + 1")
  = squeeze "PRINT  " ++ dquote ++ "a  b" ++ dquote ++ _remove_whitespace " + 1".
Proof.
  apply (proj1 (proj2 X6_whitespace_removal_exactly) "PRINT  " "a  b" " + 1");
    reflexivity.
Defined.

(** X7: horizontal whitespace never separates tokens.  Two inputs without
    double quote that are equal up to horizontal whitespace give the same
    tokens and the same ending; so an input gives what the input without its
    blanks gives, words that a blank kept apart run together. *)
Theorem X7_blanks_do_not_separate :
  (forall input1 input2,
     occurrences DQUOTE input1 = 0 ->
     occurrences DQUOTE input2 = 0 ->
     squeeze input1 = squeeze input2 ->
     tokenize input1 = tokenize input2) /\
  (forall input,
     occurrences DQUOTE input = 0 -> tokenize input = tokenize (squeeze input)).
Proof.
  assert (H : forall input1 input2,
             occurrences DQUOTE input1 = 0 ->
             occurrences DQUOTE input2 = 0 ->
             squeeze input1 = squeeze input2 ->
             tokenize input1 = tokenize input2).
  { intros input1 input2 H1 H2 Heq.
    assert (E : __init__ input1 = __init__ input2).
    { unfold __init__. rewrite !remove_whitespace_plain by assumption.
      rewrite Heq. reflexivity. }
    unfold tokenize. rewrite E. reflexivity. }
  split; [exact H|].
  intros input Hq. apply H; [exact Hq | |].
  - pose proof (occurrences_keep DQUOTE (fun c => negb (is_hspace c)) input).
    unfold squeeze. lia.
  - unfold squeeze. rewrite keep_twice. reflexivity.
Qed.

Lemma X7_witness :
  tokenize "LET a = 1" = tokenize "LETa=1".
Proof.
  apply (proj1 X7_blanks_do_not_separate "LET a = 1" "LETa=1"); reflexivity.
Defined.

(** *** Comment removal, line by line *)

Section Lines.

Let blank := fun _ : Match => EmptyString.

Lemma last_close_bound (s : string) (j : nat) :
  last_close s = Some j -> j + 2 <= String.length s.
Proof.
  revert j; induction s as [|c s IH]; intros j; [discriminate|].
  cbn [last_close]. destruct (last_close s) as [j'|].
  - intros [= <-]. specialize (IH j' eq_refl). simpl. lia.
  - destruct s as [|c2 s]; [rewrite prefix_one; discriminate|].
    destruct (prefix "*/" (String c (String c2 s))); [|discriminate].
    intros [= <-]. simpl. lia.
Qed.

Lemma length_take (n : nat) (s : string) :
  n <= String.length s -> String.length (substring 0 n s) = n.
Proof.
  revert n; induction s as [|c s IH]; intros [|n] H; simpl in *; try lia.
  rewrite IH; lia.
Qed.

Lemma line_of_self (s : string) : occurrences LF s = 0 -> line_of s = s.
Proof.
  intros H. rewrite <- (str_app_nil_r s) at 1.
  rewrite line_of_app by exact H. apply str_app_nil_r.
Qed.

(** How far a match at the head of a text reaches: the same whether or not
    further lines follow the line. *)
Lemma comment_pattern_line (line rest : string) :
  occurrences LF line = 0 ->
  match comment_pattern line with
  | Some m =>
      exists m',
        comment_pattern (line ++ String LF rest) = Some m' /\
        len (group0 m') = len (group0 m) /\
        len (group0 m) <= len line
  | None => comment_pattern (line ++ String LF rest) = None
  end.
Proof.
  intros Hline. destruct line as [|c1 [|c2 l]].
  - simpl. destruct rest; reflexivity.
  - simpl. destruct (Ascii.eqb c1 "/"); reflexivity.
  - change (String c1 (String c2 l) ++ String LF rest)
      with (String c1 (String c2 (l ++ String LF rest))).
    assert (Hl : occurrences LF l = 0).
    { simpl in Hline. destruct (Ascii.eqb c1 LF), (Ascii.eqb c2 LF);
        simpl in Hline; lia. }
    unfold comment_pattern.
    destruct (Ascii.eqb c1 "/" && Ascii.eqb c2 "*"); [|reflexivity].
    rewrite line_of_app by exact Hl. cbn [line_of]. rewrite Ascii.eqb_refl.
    rewrite str_app_nil_r, line_of_self by exact Hl.
    destruct (last_close l) as [j|] eqn:E; [|reflexivity].
    apply last_close_bound in E.
    eexists. split; [reflexivity|]. cbn [group0]. unfold len.
    rewrite !length_take; simpl; try rewrite str_length_app; simpl; lia.
Qed.

Lemma sub_from_line (line : string) :
  forall skip rest,
    occurrences LF line = 0 ->
    skip <= len line ->
    sub_from comment_pattern blank skip (line ++ String LF rest)
    = sub_from comment_pattern blank skip line
      ++ String LF (sub_from comment_pattern blank 0 rest).
Proof.
  induction line as [|c line IH]; intros skip rest Hline Hskip.
  - simpl in Hskip. replace skip with 0 by lia. cbn [append sub_from].
    assert (E : comment_pattern (String LF rest) = None)
      by (destruct rest; reflexivity).
    rewrite E. reflexivity.
  - assert (Hl : occurrences LF line = 0).
    { simpl in Hline. destruct (Ascii.eqb c LF); simpl in Hline; lia. }
    destruct skip as [|skip].
    + pose proof (comment_pattern_line (String c line) rest Hline) as P.
      change (String c line ++ String LF rest)
        with (String c (line ++ String LF rest)) in *.
      cbn [sub_from].
      destruct (comment_pattern (String c line)) as [m|].
      * destruct P as (m' & -> & Hlen & Hle). rewrite Hlen.
        destruct (len (group0 m)) as [|k].
        -- unfold blank at 1 3. cbn [append]. rewrite IH by (auto; lia).
           reflexivity.
        -- unfold blank at 1 3. cbn [append]. apply IH; [exact Hl|].
           unfold len in *. simpl in Hle. lia.
      * rewrite P. cbn [append]. rewrite IH by (auto; lia). reflexivity.
    + change (String c line ++ String LF rest)
        with (String c (line ++ String LF rest)).
      cbn [sub_from]. apply IH; [exact Hl|]. unfold len in *. simpl in Hskip. lia.
Qed.

Lemma remove_comments_lines (line rest : string) :
  occurrences LF line = 0 ->
  _remove_comments (line ++ newline ++ rest)
  = _remove_comments line ++ newline ++ _remove_comments rest.
Proof.
  intros H. unfold _remove_comments, re_sub. fold blank.
  change (newline ++ rest) with (String LF rest).
  rewrite sub_from_line by (auto; lia). reflexivity.
Qed.

End Lines.

(** X8: comment removal works line by line: the lines of the input are
    cleared of their comments one by one, each as if it stood alone, and the
    line feeds stay.  No comment reaches over a line feed. *)
Theorem X8_comments_line_by_line :
  forall line rest,
    occurrences LF line = 0 ->
    _remove_comments (line ++ newline ++ rest)
    = _remove_comments line ++ newline ++ _remove_comments rest.
Proof. exact remove_comments_lines. Qed.

Lemma X8_witness :
  _remove_comments ("1 /* a" ++ newline ++ "b */ 2 /*c*/")
  = _remove_comments "1 /* a" ++ newline ++ _remove_comments "b */ 2 /*c*/".
Proof.
  apply (X8_comments_line_by_line "1 /* a" "b */ 2 /*c*/"). reflexivity.
Defined.

(** X9: comment removal leaves alone a text in which no comment opens, and
    a text in which no comment closes. *)
Theorem X9_no_comment_no_change :
  forall input,
    has "/*" input = false \/ has "*/" input = false ->
    _remove_comments input = input.
Proof.
  intros input [H|H].
  - rewrite <- (str_app_nil_r input) at 1.
    rewrite remove_comments_none by (auto; discriminate).
    apply str_app_nil_r.
  - apply remove_comments_unclosed. exact H.
Qed.

Lemma X9_witness :
  _remove_comments "a */ b * / c /x* 1" = "a */ b * / c /x* 1".
Proof.
  apply (X9_no_comment_no_change "a */ b * / c /x* 1"). left. reflexivity.
Defined.

(** *** The kind of a token *)

Section Kinds.

Lemma rule_of_ident_kind (lexeme : string) : rule_of_kind (ident_kind lexeme) = WordRule.
Proof.
  unfold ident_kind. destruct (check_if_keyword lexeme) as [kind|] eqn:E;
    [|reflexivity].
  apply check_if_keyword_spec in E as [_ E].
  destruct kind; try discriminate E; reflexivity.
Qed.

Lemma rule_of_table (key : string) (kind : TokenType) :
  dict_get TOKEN_TYPES key = Some kind -> rule_of_kind kind = OperatorRule.
Proof.
  unfold TOKEN_TYPES. cbn [dict_get].
  repeat match goal with
         | |- context [String.eqb ?k key] => destruct (String.eqb k key)
         end; intros [= <-]; reflexivity.
Qed.

(** What the dispatch returns on a character: a token of the strategy the
    character is left to; a word has the kind of the keyword classifier, an
    operator the kind the table gives its text. *)
Lemma get_next_token_kind (c : ascii) (s : TokenGenerator) (token : Token)
      (mid : TokenGenerator) :
  _get_next_token c s = (Ok token, mid) ->
  rule_of_kind (kind token) = rule_for c /\
  (rule_for c = WordRule -> kind token = ident_kind (text token)) /\
  (rule_for c = OperatorRule ->
   dict_get TOKEN_TYPES (text token) = Some (kind token)).
Proof.
  unfold rule_for. destruct (isdigit c) eqn:Hd.
  - rewrite get_next_token_digit, get_number_cases by exact Hd. cbv zeta.
    destruct (Ascii.eqb (_peek (scan isdigit s)) "."); cbv beta iota.
    + match goal with
      | |- context [if isdigit ?x then _ else _] => destruct (isdigit x)
      end; cbv beta iota; [|discriminate].
      intros [= <- _]. repeat split; discriminate.
    + intros [= <- _]. repeat split; discriminate.
  - destruct (isalpha c) eqn:Ha.
    + rewrite get_next_token_alpha, get_ident_or_keyword_cases by exact Ha.
      cbv beta iota zeta. intros [= <- _]. cbn [kind text].
      split; [apply rule_of_ident_kind|]. split; [reflexivity | discriminate].
    + destruct (Ascii.eqb_spec c NUL) as [->|Hn].
      * rewrite get_next_token_NUL. intros [= <- _].
        repeat split; discriminate.
      * destruct (Ascii.eqb_spec c LF) as [->|Hl].
        -- intros [= <- _]. repeat split; discriminate.
        -- assert (E : existsb (String.eqb (str1 c)) [str1 LF; String CR (str1 LF)]
                       = false).
           { simpl. destruct (Ascii.eqb_spec c LF); [contradiction|].
             destruct (Ascii.eqb c CR); reflexivity. }
           rewrite E. destruct (Ascii.eqb_spec c DQUOTE) as [->|Hq].
           ++ rewrite get_next_token_quote, get_string_cases.
              cbv beta iota zeta. intros [= <- _]. repeat split; discriminate.
           ++ rewrite get_next_token_other by assumption.
              unfold _is_operator, bind, gets, advance, modify, ret.
              destruct (dict_get TOKEN_TYPES (str1 c ++ str1 (_peek s)))
                as [k2|] eqn:H2.
              ** intros [= <- _]. cbn [kind text].
                 split; [exact (rule_of_table _ _ H2)|].
                 split; [discriminate | intros _; exact H2].
              ** destruct (dict_get TOKEN_TYPES (str1 c)) as [k1|] eqn:H1;
                   [|discriminate].
                 intros [= <- _]. cbn [kind text].
                 split; [exact (rule_of_table _ _ H1)|].
                 split; [discriminate | intros _; exact H1].
Qed.

End Kinds.

(** X10: the kind of a token tells the strategy that made it, and the
    character at the cursor alone decides the strategy: NUMBER on a digit, a
    keyword or IDENT on a letter, EOF on the null character, NEWLINE on a
    line feed, STRING on a double quote, an operator kind on anything else.
    The kind of a word is what the keyword classifier gives its text, the
    kind of an operator what the table gives its text. *)
Theorem X10_kind_tells_the_rule :
  forall self token self',
    __next__ self = (Ok token, self') ->
    rule_of_kind (kind token) = rule_for (cur_char_of self) /\
    (rule_for (cur_char_of self) = WordRule ->
     kind token = ident_kind (text token)) /\
    (rule_for (cur_char_of self) = OperatorRule ->
     dict_get TOKEN_TYPES (text token) = Some (kind token)).
Proof.
  intros self token self' H.
  destruct (_at_end self) eqn:Hend;
    [rewrite next_at_end in H by exact Hend; discriminate H|].
  rewrite next_unfold in H by exact Hend.
  destruct (_get_next_token (cur_char_of self) (mark_end self))
    as [[t|e] mid] eqn:E; [|discriminate H].
  injection H as <- _. exact (get_next_token_kind _ _ _ _ E).
Qed.

Lemma X10_witness :
  rule_of_kind (kind (mkToken "<=" LTEQ)) = rule_for (cur_char_of (__init__ "<=1")) /\
  (rule_for (cur_char_of (__init__ "<=1")) = WordRule ->
   kind (mkToken "<=" LTEQ) = ident_kind (text (mkToken "<=" LTEQ))) /\
  (rule_for (cur_char_of (__init__ "<=1")) = OperatorRule ->
   dict_get TOKEN_TYPES (text (mkToken "<=" LTEQ)) = Some (kind (mkToken "<=" LTEQ))).
Proof.
  apply (X10_kind_tells_the_rule (__init__ "<=1") (mkToken "<=" LTEQ)
           (snd (__next__ (__init__ "<=1")))).
  reflexivity.
Defined.

(** *** How the iteration ends *)

Section Ending.

(** No more tokens than calls left. *)
Lemma collect_length (fuel : nat) :
  forall self, length (fst (collect fuel self)) <= calls_left self.
Proof.
  induction fuel as [|fuel IH]; intros self; simpl; [lia|].
  destruct (__next__ self) as [[token|e] self'] eqn:E.
  - apply next_calls_left in E. specialize (IH self').
    destruct (collect fuel self') as [tokens e]. simpl in *. lia.
  - destruct e; simpl; lia.
Qed.

(** Any fuel above the calls left gives the same tokens and ending. *)
Lemma collect_fuel (fuel1 : nat) :
  forall fuel2 self,
    calls_left self < fuel1 -> calls_left self < fuel2 ->
    collect fuel1 self = collect fuel2 self.
Proof.
  induction fuel1 as [|fuel1 IH]; intros fuel2 self H1 H2; [lia|].
  destruct fuel2 as [|fuel2]; [lia|].
  simpl. destruct (__next__ self) as [[token|e] self'] eqn:E; [|reflexivity].
  apply next_calls_left in E.
  rewrite (IH fuel2 self') by lia. reflexivity.
Qed.

(** A call from a generator in order: either the end flag stays down and
    the generator in order, or the token is the EOF token and the flag is
    set. *)
Lemma next_in_order (self : TokenGenerator) (token : Token) (self' : TokenGenerator) :
  in_order self ->
  __next__ self = (Ok token, self') ->
  in_order self' \/ (token = EOF_token /\ _at_end self' = true).
Proof.
  intros [Hlive Himp] H. rewrite next_unfold in H by exact Hlive.
  destruct (String.eqb_spec (_next_char self) (str1 NUL)) as [Hn|Hn].
  - right. rewrite (Himp Hn), get_next_token_NUL in H.
    injection H as <- <-. split; [reflexivity|]. simpl. unfold mark_end.
    rewrite Hn. reflexivity.
  - left.
    assert (Hmark : mark_end self = self).
    { unfold mark_end. destruct (String.eqb_spec (_next_char self) (str1 NUL));
        [contradiction | reflexivity]. }
    rewrite Hmark in H.
    destruct (_get_next_token (cur_char_of self) self) as [[t|e] mid] eqn:E;
      [|discriminate H].
    injection H as _ <-.
    apply only_moves_get_next_token in E as (_ & _ & He & _).
    split; simpl; [congruence|].
    change (cur_char_of (finish mid)) with (_peek mid). intros [= K]. exact K.
Qed.

(** From a generator in order, an exhausted iteration has returned the EOF
    token last. *)
Lemma collect_in_order (fuel : nat) :
  forall self tokens,
    in_order self ->
    collect fuel self = (tokens, Exhausted) ->
    exists body, tokens = (body ++ [EOF_token])%list.
Proof.
  induction fuel as [|fuel IH]; intros self tokens Hord; [discriminate|].
  simpl. destruct (__next__ self) as [[token|e] self'] eqn:E.
  - destruct (next_in_order _ _ _ Hord E) as [Hord'|[-> Hend]].
    + specialize (IH self').
      destruct (collect fuel self') as [tokens' e']. intros [= <- ->].
      destruct (IH tokens' Hord' eq_refl) as [body ->].
      exists (token :: body). reflexivity.
    + destruct fuel as [|fuel]; [discriminate|].
      simpl. rewrite next_at_end by exact Hend. intros [= <-].
      exists []. reflexivity.
  - destruct Hord as [Hlive _].
    rewrite next_unfold in E by exact Hlive.
    destruct (_get_next_token (cur_char_of self) (mark_end self))
      as [[t|e0] mid] eqn:G; [discriminate E|].
    injection E as <- _.
    destruct e0; [|discriminate]. exfalso.
    destruct (Ascii.eqb_spec (cur_char_of self) NUL) as [Hc|Hc].
    + rewrite Hc, get_next_token_NUL in G. discriminate G.
    + exact (plain_get_next_token _ Hc _ _ _ G eq_refl).
Qed.

End Ending.

(** X12: the iteration always ends.  For every input, collecting the tokens
    ends by an exception of [__next__] whatever number of calls is allowed
    beyond the length of the source plus two, always with the same result,
    and there are at most as many tokens as the source has characters, plus
    two. *)
Theorem X12_iteration_ends :
  forall input,
    snd (tokenize input) <> OutOfFuel /\
    length (fst (tokenize input)) <= len (_source (__init__ input)) + 2 /\
    (forall fuel,
       len (_source (__init__ input)) + 2 < fuel ->
       collect fuel (__init__ input) = tokenize input).
Proof.
  intros input. split; [apply tokenize_ends|].
  assert (Hc : calls_left (__init__ input) = 2 + len (_source (__init__ input)))
    by (unfold calls_left; simpl; lia).
  split.
  - unfold tokenize.
    pose proof (collect_length (S (calls_left (__init__ input))) (__init__ input)).
    lia.
  - intros fuel H. unfold tokenize. apply collect_fuel; lia.
Qed.

Lemma X12_witness :
  collect 40 (__init__ "LET x = 12.5") = tokenize "LET x = 12.5".
Proof.
  apply (proj2 (proj2 (X12_iteration_ends "LET x = 12.5")) 40).
  vm_compute. lia.
Defined.

(** X13: the EOF token closes the iteration.  For every input, an exhausted
    iteration has returned the EOF token as its last token.  When the source
    starts with a character other than the null character, it is the only
    EOF token; and when a call fails instead, no EOF token was returned. *)
Theorem X13_EOF_closes_the_iteration :
  (forall input tokens,
     tokenize input = (tokens, Exhausted) ->
     exists body, tokens = (body ++ [EOF_token])%list) /\
  (forall input,
     first_char (_source (__init__ input)) <> NUL ->
     match tokenize input with
     | (tokens, Exhausted) =>
         exists body,
           tokens = (body ++ [EOF_token])%list /\
           Forall (fun token => kind token <> EOF) body
     | (tokens, Failed _) => Forall (fun token => kind token <> EOF) tokens
     | (_, OutOfFuel) => False
     end).
Proof.
  split; [|exact EOF_once_on_nonempty_source].
  intros input tokens H. unfold tokenize in H.
  apply collect_in_order in H; [exact H|].
  split; [reflexivity | discriminate].
Qed.

Lemma X13_witness :
  exists body,
    fst (tokenize "IF x >= 10 THEN") = (body ++ [EOF_token])%list /\
    Forall (fun token => kind token <> EOF) body.
Proof.
  exact (proj2 X13_EOF_closes_the_iteration "IF x >= 10 THEN" ltac:(discriminate)).
Defined.

(** X14: whitespace removal drops nothing but horizontal whitespace: every
    other character, the line feed and the double quote among them, occurs in
    the result as often as in the input. *)
Theorem X14_whitespace_removal_keeps_the_rest :
  forall c input,
    is_hspace c = false ->
    occurrences c (_remove_whitespace input) = occurrences c input.
Proof. intros c input H. apply remove_whitespace_keeps. exact H. Qed.

Lemma X14_witness :
  occurrences LF (_remove_whitespace ("a  b" ++ newline ++ " c " ++ newline))
  = occurrences LF ("a  b" ++ newline ++ " c " ++ newline).
Proof.
  apply (X14_whitespace_removal_keeps_the_rest LF). reflexivity.
Defined.

(** *** The shape of numbers and words *)

Section Shapes.

Lemma drop_get (s : string) (i : nat) (c : ascii) :
  String.get i s = Some c -> drop i s = String c (drop (S i) s).
Proof.
  revert i; induction s as [|x s IH]; intros i H; [discriminate|].
  destruct i; simpl in *.
  - injection H as ->. destruct s; reflexivity.
  - rewrite (IH i H). reflexivity.
Qed.

(** Every text is a longest run of characters that satisfy [p] and a rest
    that starts with another character, or is empty. *)
Lemma span_split (p : ascii -> bool) (s : string) :
  p NUL = false ->
  s = substring 0 (span_len p s) s ++ drop (span_len p s) s /\
  all_chars p (substring 0 (span_len p s) s) = true /\
  p (first_char (drop (span_len p s) s)) = false.
Proof.
  intros Hp. split; [symmetry; apply take_drop|].
  induction s as [|x s [IH1 IH2]]; [split; [reflexivity | exact Hp]|].
  simpl. destruct (p x) eqn:E.
  - simpl. rewrite E, IH1. split; [reflexivity | exact IH2].
  - split; [reflexivity | exact E].
Qed.

(** The source around a cursor that stands on a character: what is before,
    the character, the longest run of [p] behind it, and the rest. *)
Lemma source_at_cursor (p : ascii -> bool) (self : TokenGenerator) (c : ascii) :
  p NUL = false ->
  getitem (_source self) (_cur_pos self) = Some c ->
  exists a run rest,
    _source self = a ++ String c run ++ rest /\
    _cur_pos self = len a /\
    all_chars p run = true /\
    p (first_char rest) = false.
Proof.
  intros Hp Hget. unfold getitem in Hget.
  pose proof (get_some_within _ _ _ Hget) as Hin.
  destruct (span_split p (drop (S (_cur_pos self)) (_source self)) Hp)
    as (Hsplit & Hall & Hstop).
  exists (substring 0 (_cur_pos self) (_source self)).
  eexists. eexists. split; [|split; [|split; [exact Hall | exact Hstop]]].
  - rewrite <- (take_drop (_cur_pos self) (_source self)) at 1.
    f_equal. rewrite (drop_get _ _ _ Hget). cbn [append]. f_equal. exact Hsplit.
  - unfold len. rewrite length_take by lia. reflexivity.
Qed.

End Shapes.

(** X15: the number rule, whatever the source.  On a digit, the source is
    what stands before the cursor, the digit with the longest run of digits
    behind it, and a rest that starts with no digit; and a call of a
    generator that is not exhausted ends in one of three ways.  If the rest
    does not start with a dot, the token is the NUMBER token of the digits.
    If the rest is a dot and digits, the token is the NUMBER token of the
    digits, the dot and the longest run of digits behind it.  In both cases
    the cursor is left right behind the text of the token.  If the rest is a
    dot with no digit behind it, the call raises the malformed-number error
    and leaves the cursor on the dot. *)
Theorem X15_number_tokens :
  forall self c,
    _at_end self = false ->
    getitem (_source self) (_cur_pos self) = Some c ->
    isdigit c = true ->
    exists a ds rest self',
      _source self = a ++ String c ds ++ rest /\
      _cur_pos self = len a /\
      all_chars isdigit ds = true /\
      isdigit (first_char rest) = false /\
      ((first_char rest <> "."%char /\
        __next__ self = (Ok (mkToken (String c ds) NUMBER), self') /\
        _cur_pos self' = len a + len (String c ds)) \/
       (exists f fs rest',
          rest = String "." (String f fs ++ rest') /\
          isdigit f = true /\
          all_chars isdigit fs = true /\
          isdigit (first_char rest') = false /\
          __next__ self
          = (Ok (mkToken (String c ds ++ String "." (String f fs)) NUMBER), self') /\
          _cur_pos self' = len a + len (String c ds ++ String "." (String f fs))) \/
       (exists tail,
          rest = String "." tail /\
          isdigit (first_char tail) = false /\
          __next__ self = (Raise MalformedNumber, self') /\
          _cur_pos self' = len a + len (String c ds))).
Proof.
  intros self c Hlive Hget Hc.
  destruct (source_at_cursor isdigit self c eq_refl Hget)
    as (a & ds & rest & Hsource & Hcursor & Hds & Hstop).
  assert (Hcur : cur_char_of self = c)
    by (unfold cur_char_of; rewrite Hget; reflexivity).
  assert (Hs : _source (mark_end self) = a ++ String c ds ++ rest)
    by (rewrite mark_end_source; exact Hsource).
  assert (Hp : _cur_pos (mark_end self) = len a)
    by (rewrite mark_end_cur_pos; exact Hcursor).
  exists a, ds, rest.
  destruct (Ascii.eqb_spec (first_char rest) ".") as [Hdot|Hdot].
  - destruct rest as [|x tail]; [discriminate Hdot|].
    simpl in Hdot. subst x.
    destruct (isdigit (first_char tail)) eqn:Htail.
    + destruct tail as [|f tail]; [discriminate Htail|].
      simpl in Htail.
      destruct (span_split isdigit tail eq_refl) as (Hsplit & Hfs & Hend).
      set (fs := substring 0 (span_len isdigit tail) tail) in *.
      set (rest' := drop (span_len isdigit tail) tail) in *.
      eexists. repeat (split; [assumption|]). right. left.
      exists f, fs, rest'.
      split; [cbn [append]; do 2 f_equal; exact Hsplit|].
      repeat (split; [assumption|]). split.
      * apply next_of_token; [exact Hlive|].
        rewrite Hcur, get_next_token_digit by exact Hc.
        rewrite (get_number_decimal _ a c ds _ Hs Hp Hc Hds Hstop
                   (String f tail) eq_refl f fs rest');
          [reflexivity | | assumption..].
        cbn [append]. f_equal. exact Hsplit.
      * simpl. unfold len. rewrite str_length_app. simpl. lia.
    + eexists. repeat (split; [assumption|]). right. right.
      exists tail. split; [reflexivity|]. split; [exact Htail|]. split.
      * apply next_of_raise; [exact Hlive|].
        rewrite Hcur, get_next_token_digit by exact Hc.
        rewrite (get_number_malformed _ a c ds _ Hs Hp Hc Hds Hstop tail eq_refl
                   Htail).
        reflexivity.
      * simpl. unfold len. lia.
  - eexists. repeat (split; [assumption|]). left. split; [exact Hdot|]. split.
    + apply next_of_token; [exact Hlive|].
      rewrite Hcur, get_next_token_digit by exact Hc.
      rewrite (get_number_integer _ a c ds rest) by assumption. reflexivity.
    + simpl. lia.
Qed.

Lemma X15_witness :
  exists a ds rest self',
    _source (__init__ "x=12.50+y") = a ++ String "1" ds ++ rest /\
    _cur_pos (snd (__next__ (snd (__next__ (__init__ "x=12.50+y"))))) = len a /\
    all_chars isdigit ds = true /\
    isdigit (first_char rest) = false /\
    ((first_char rest <> "."%char /\
      __next__ (snd (__next__ (snd (__next__ (__init__ "x=12.50+y")))))
      = (Ok (mkToken (String "1" ds) NUMBER), self') /\
      _cur_pos self' = len a + len (String "1" ds)) \/
     (exists f fs rest',
        rest = String "." (String f fs ++ rest') /\
        isdigit f = true /\
        all_chars isdigit fs = true /\
        isdigit (first_char rest') = false /\
        __next__ (snd (__next__ (snd (__next__ (__init__ "x=12.50+y")))))
        = (Ok (mkToken (String "1" ds ++ String "." (String f fs)) NUMBER), self') /\
        _cur_pos self' = len a + len (String "1" ds ++ String "." (String f fs))) \/
     (exists tail,
        rest = String "." tail /\
        isdigit (first_char tail) = false /\
        __next__ (snd (__next__ (snd (__next__ (__init__ "x=12.50+y")))))
        = (Raise MalformedNumber, self') /\
        _cur_pos self' = len a + len (String "1" ds))).
Proof.
  exact (X15_number_tokens
           (snd (__next__ (snd (__next__ (__init__ "x=12.50+y")))))
           "1"%char eq_refl eq_refl eq_refl).
Defined.

(** X16: the word rule, whatever the source.  On a letter, the source is
    what stands before the cursor, the letter with the longest run of
    letters and digits behind it, and a rest that starts with neither; a
    call of a generator that is not exhausted never raises: it returns the
    token whose text is the letter and that run, and whose kind is what the
    keyword classifier gives that text, IDENT if nothing, and it leaves the
    cursor right behind the text. *)
Theorem X16_word_tokens :
  forall self c,
    _at_end self = false ->
    getitem (_source self) (_cur_pos self) = Some c ->
    isalpha c = true ->
    exists a w rest self',
      _source self = a ++ String c w ++ rest /\
      _cur_pos self = len a /\
      all_chars isalnum w = true /\
      isalnum (first_char rest) = false /\
      __next__ self = (Ok (mkToken (String c w) (ident_kind (String c w))), self') /\
      _cur_pos self' = len a + len (String c w).
Proof.
  intros self c Hlive Hget Hc.
  destruct (source_at_cursor isalnum self c eq_refl Hget)
    as (a & w & rest & Hsource & Hcursor & Hw & Hstop).
  assert (Hcur : cur_char_of self = c)
    by (unfold cur_char_of; rewrite Hget; reflexivity).
  exists a, w, rest. eexists. repeat (split; [assumption|]). split.
  - apply next_of_token; [exact Hlive|].
    rewrite Hcur, get_next_token_alpha by exact Hc.
    rewrite (get_ident_or_keyword_word _ a c w rest); auto.
    + rewrite mark_end_source. exact Hsource.
    + rewrite mark_end_cur_pos. exact Hcursor.
  - simpl. lia.
Qed.

Lemma X16_witness :
  exists a w rest self',
    _source (__init__ "1+GOTO10 <2") = a ++ String "G" w ++ rest /\
    _cur_pos (snd (__next__ (snd (__next__ (__init__ "1+GOTO10 <2"))))) = len a /\
    all_chars isalnum w = true /\
    isalnum (first_char rest) = false /\
    __next__ (snd (__next__ (snd (__next__ (__init__ "1+GOTO10 <2")))))
    = (Ok (mkToken (String "G" w) (ident_kind (String "G" w))), self') /\
    _cur_pos self' = len a + len (String "G" w).
Proof.
  exact (X16_word_tokens
           (snd (__next__ (snd (__next__ (__init__ "1+GOTO10 <2")))))
           "G"%char eq_refl eq_refl eq_refl).
Defined.

(** *** The characters that are rejected *)

Lemma get_next_token_unrecognized (c c0 : ascii) (s s' : TokenGenerator) :
  _get_next_token c s = (Raise (UnrecognizedCharacter c0), s') ->
  no_rule c (_peek s) = true.
Proof.
  destruct (isdigit c) eqn:Hd.
  - rewrite get_next_token_digit, get_number_cases by exact Hd. cbv zeta.
    destruct (Ascii.eqb (_peek (scan isdigit s)) "."); cbv beta iota;
      [|discriminate].
    match goal with
    | |- context [if isdigit ?x then _ else _] => destruct (isdigit x)
    end; cbv beta iota; discriminate.
  - destruct (isalpha c) eqn:Ha.
    + rewrite get_next_token_alpha, get_ident_or_keyword_cases by exact Ha.
      cbv beta iota zeta. discriminate.
    + destruct (Ascii.eqb_spec c NUL) as [->|Hn];
        [rewrite get_next_token_NUL; discriminate|].
      destruct (Ascii.eqb_spec c LF) as [->|Hl]; [discriminate|].
      destruct (Ascii.eqb_spec c DQUOTE) as [->|Hq].
      * rewrite get_next_token_quote, get_string_cases.
        cbv beta iota zeta. discriminate.
      * rewrite get_next_token_other by assumption.
        unfold _is_operator, bind, gets.
        destruct (dict_get TOKEN_TYPES (str1 c ++ str1 (_peek s))) eqn:H2;
          [discriminate|].
        destruct (dict_get TOKEN_TYPES (str1 c)) eqn:H1; [discriminate|].
        intros _. unfold no_rule. rewrite Hd, Ha, H2, H1.
        destruct (Ascii.eqb_spec c NUL); [contradiction|].
        destruct (Ascii.eqb_spec c LF); [contradiction|].
        destruct (Ascii.eqb_spec c DQUOTE); [contradiction|].
        reflexivity.
Qed.

(** X11: the characters that are rejected.  A call of a generator that is
    not exhausted raises the error of the unrecognized character exactly
    when the character at the cursor is no digit, no letter, not the null
    character, the line feed or the double quote, and neither alone nor
    with the lookahead a key of the operator table; the generator is then
    left as the call found it, the end flag apart. *)
Theorem X11_rejected_characters :
  forall self,
    _at_end self = false ->
    (no_rule (cur_char_of self) (_peek self) = true ->
     __next__ self = (Raise (UnrecognizedCharacter (cur_char_of self)), mark_end self)) /\
    (forall c0 self',
       __next__ self = (Raise (UnrecognizedCharacter c0), self') ->
       no_rule (cur_char_of self) (_peek self) = true).
Proof.
  intros self Hlive. split.
  - intros H. apply next_of_raise; [exact Hlive|].
    apply no_rule_raises. rewrite peek_mark_end. exact H.
  - intros c0 self' H. rewrite next_unfold in H by exact Hlive.
    destruct (_get_next_token (cur_char_of self) (mark_end self))
      as [[t|e] mid] eqn:E; [discriminate H|].
    injection H as -> _.
    apply get_next_token_unrecognized in E. rewrite peek_mark_end in E. exact E.
Qed.

Lemma X11_witness :
  __next__ (__init__ "!1")
  = (Raise (UnrecognizedCharacter (cur_char_of (__init__ "!1"))),
     mark_end (__init__ "!1")).
Proof.
  apply (proj1 (X11_rejected_characters (__init__ "!1") eq_refl)). reflexivity.
Defined.

(** *** A lexeme does not run over a hard character *)

Section Barrier.

Variables (b : nat) (x : ascii).

Lemma digit_is_alnum (c : ascii) : isdigit c = true -> isalnum c = true.
Proof. intros H. unfold isalnum. rewrite H. apply orb_true_iff. left. apply orb_true_r. Qed.

Lemma hard_parts :
  hard x = true ->
  isdigit x = false /\ isalnum x = false /\ x <> "."%char /\ x <> "="%char.
Proof.
  unfold hard. intros H.
  apply andb_prop in H as [H H3]. apply andb_prop in H as [H1 H2].
  apply negb_true_iff in H1, H2, H3.
  apply Ascii.eqb_neq in H2, H3.
  split; [|auto].
  destruct (isdigit x) eqn:E; [|reflexivity].
  apply digit_is_alnum in E. congruence.
Qed.

(** The lookahead of a cursor right before the position [b]. *)
Lemma peek_at_barrier (s : TokenGenerator) :
  getitem (_source s) b = Some x -> _cur_pos s + 1 = b -> _peek s = x.
Proof. intros G E. unfold _peek. rewrite E, G. reflexivity. Qed.

(** A loop does not reach a character that its test rejects. *)
Lemma scan_barrier (p : ascii -> bool) (fuel : nat) :
  p x = false ->
  forall s,
    getitem (_source s) b = Some x ->
    _cur_pos s < b ->
    _cur_pos (while_peek_fuel p fuel s) < b.
Proof.
  intros Hp. induction fuel as [|fuel IH]; intros s G H; [exact H|].
  simpl. destruct (p (_peek s)) eqn:E; [|exact H].
  apply IH; [exact G|]. simpl.
  destruct (Nat.eq_dec (_cur_pos s + 1) b) as [Hb|Hb]; [|lia].
  rewrite (peek_at_barrier s G Hb) in E. congruence.
Qed.

Lemma scan_source (p : ascii -> bool) (s : TokenGenerator) :
  _source (scan p s) = _source s.
Proof. unfold scan. apply while_peek_fuel_moved. Qed.

(** What the dispatch finds before a hard character leaves the cursor
    before that character. *)
Lemma get_next_token_barrier (s : TokenGenerator) (c : ascii) (token : Token)
      (mid : TokenGenerator) :
  hard x = true ->
  getitem (_source s) b = Some x ->
  _cur_pos s < b ->
  c <> NUL -> c <> DQUOTE ->
  _get_next_token c s = (Ok token, mid) ->
  _cur_pos mid < b.
Proof.
  intros Hx G Hlt Hn Hq.
  destruct (hard_parts Hx) as (X1 & X2 & X3 & X4).
  destruct (isdigit c) eqn:Hd.
  - rewrite get_next_token_digit, get_number_cases by exact Hd. cbv zeta.
    pose proof (scan_barrier isdigit (len (_source s)) X1 s G Hlt) as B1.
    fold (scan isdigit s) in B1.
    destruct (Ascii.eqb_spec (_peek (scan isdigit s)) ".") as [Hdot|];
      cbv beta iota.
    + match goal with
      | |- context [if isdigit ?y then _ else _] => destruct (isdigit y)
      end; cbv beta iota; [|discriminate].
      intros [= _ <-]. unfold scan at 1. apply scan_barrier; [exact X1 | |].
      * simpl. rewrite scan_source. exact G.
      * simpl.
        destruct (Nat.eq_dec (_cur_pos (scan isdigit s) + 1) b) as [Hb|Hb]; [|lia].
        rewrite (peek_at_barrier (scan isdigit s)) in Hdot;
          [congruence | rewrite scan_source; exact G | exact Hb].
    + intros [= _ <-]. exact B1.
  - destruct (isalpha c) eqn:Ha.
    + rewrite get_next_token_alpha, get_ident_or_keyword_cases by exact Ha.
      cbv beta iota zeta. intros [= _ <-].
      unfold scan. apply scan_barrier; assumption.
    + destruct (Ascii.eqb_spec c LF) as [->|Hl].
      * intros [= _ <-]. exact Hlt.
      * rewrite get_next_token_other by assumption.
        unfold _is_operator, bind, gets, advance, modify, ret.
        destruct (dict_get TOKEN_TYPES (str1 c ++ str1 (_peek s))) as [k2|] eqn:H2.
        -- intros [= _ <-]. apply two_char_keys in H2 as (Hp & _). simpl.
           destruct (Nat.eq_dec (_cur_pos s + 1) b) as [Hb|Hb]; [|lia].
           rewrite (peek_at_barrier s G Hb) in Hp. congruence.
        -- destruct (dict_get TOKEN_TYPES (str1 c)) as [k1|]; [|discriminate].
           intros [= _ <-]. exact Hlt.
Qed.

(** A successful call before a hard character leaves the cursor on that
    character at most. *)
Lemma next_barrier (self : TokenGenerator) (c : ascii) (token : Token)
      (self' : TokenGenerator) :
  hard x = true ->
  getitem (_source self) b = Some x ->
  _cur_pos self < b ->
  getitem (_source self) (_cur_pos self) = Some c ->
  c <> NUL -> c <> DQUOTE ->
  __next__ self = (Ok token, self') ->
  _cur_pos self' <= b.
Proof.
  intros Hx G Hlt Hget Hn Hq H.
  destruct (_at_end self) eqn:Hend;
    [rewrite next_at_end in H by exact Hend; discriminate H|].
  rewrite next_unfold in H by exact Hend.
  assert (Hcur : cur_char_of self = c)
    by (unfold cur_char_of; rewrite Hget; reflexivity).
  rewrite Hcur in H.
  destruct (_get_next_token c (mark_end self)) as [[t|e] mid] eqn:E;
    [|discriminate H].
  injection H as _ <-.
  apply get_next_token_barrier in E; try assumption.
  - simpl. lia.
  - rewrite mark_end_source. exact G.
  - rewrite mark_end_cur_pos. exact Hlt.
Qed.

End Barrier.

(** *** Up to a carriage return *)

Section CarriageReturn.

Lemma first_occurrence (c : ascii) (s : string) :
  0 < occurrences c s ->
  exists w v, s = w ++ String c v /\ occurrences c w = 0.
Proof.
  induction s as [|x s IH]; simpl; intros H; [lia|].
  destruct (Ascii.eqb_spec x c) as [->|Hx].
  - exists EmptyString, s. split; reflexivity.
  - destruct (IH H) as (w & v & -> & Hw).
    exists (String x w), v. split; [reflexivity|].
    simpl. destruct (Ascii.eqb_spec x c); [contradiction | exact Hw].
Qed.

Lemma length_drop (n : nat) (s : string) : len (drop n s) = len s - n.
Proof.
  revert n; induction s as [|x s IH]; intros [|n]; try reflexivity.
  simpl drop. rewrite IH. reflexivity.
Qed.

Lemma drop_app (x y : string) : drop (len x) (x ++ y) = y.
Proof. induction x as [|c x IH]; [destruct y; reflexivity | exact IH]. Qed.

Lemma drop_app_l (n : nat) (x y : string) :
  n <= len x -> drop n (x ++ y) = drop n x ++ y.
Proof.
  revert n; induction x as [|c x IH]; intros [|n] H.
  - destruct y; reflexivity.
  - simpl in H. lia.
  - reflexivity.
  - apply IH. unfold len in *. simpl in H. lia.
Qed.

Lemma get_at (a rest : string) (c : ascii) :
  getitem (a ++ String c rest) (len a) = Some c.
Proof.
  unfold getitem, len.
  rewrite <- (Nat.add_0_r (String.length a)), get_app_r. reflexivity.
Qed.

(** A closed string literal at the cursor is one token, and the cursor is
    left behind its closing quote. *)
Lemma next_string_closed (self : TokenGenerator) (a body rest : string) :
  _at_end self = false ->
  _source self = a ++ dquote ++ body ++ dquote ++ rest ->
  _cur_pos self = len a ->
  occurrences DQUOTE body = 0 ->
  exists self',
    __next__ self = (Ok (mkToken body STRING), self') /\
    _cur_pos self' = len a + len body + 2.
Proof.
  intros Hlive Hsource Hcursor Hbody.
  assert (Hcur : cur_char_of self = DQUOTE)
    by (rewrite (cur_char_at self a (dquote ++ body ++ dquote ++ rest)); auto).
  eexists. split.
  - apply next_of_token; [exact Hlive|].
    rewrite Hcur, get_next_token_quote.
    rewrite (get_string_closed _ a (body ++ dquote ++ rest)) with (body := body)
                                                                  (rest := rest);
      try reflexivity; try assumption.
    + rewrite mark_end_source. exact Hsource.
    + rewrite mark_end_cur_pos. exact Hcursor.
  - simpl. lia.
Qed.

Variable post : string.

(** One successful call before a carriage return that stands outside a
    string literal: the cursor does not pass the carriage return, and what
    is left before it is outside a string literal again. *)
Lemma next_before_CR (self : TokenGenerator) (a u : string) (token : Token)
      (self' : TokenGenerator) :
  _source self = a ++ u ++ String CR post ->
  _cur_pos self = len a ->
  u <> EmptyString ->
  occurrences NUL u = 0 ->
  Nat.even (occurrences DQUOTE u) = true ->
  __next__ self = (Ok token, self') ->
  exists k,
    _cur_pos self' = len a + k /\ 0 < k <= len u /\
    Nat.even (occurrences DQUOTE (drop k u)) = true.
Proof.
  intros Hsource Hcursor Hu Hnul Hq H.
  destruct u as [|c u']; [contradiction|]. clear Hu.
  assert (Hlive : _at_end self = false).
  { destruct (_at_end self) eqn:E; [|reflexivity].
    rewrite next_at_end in H by exact E. discriminate H. }
  assert (Hget : getitem (_source self) (_cur_pos self) = Some c).
  { rewrite Hsource, Hcursor. apply (get_at a (u' ++ String CR post) c). }
  assert (Hc : c <> NUL).
  { apply (get_null_free (String c u') 0 c Hnul). reflexivity. }
  pose proof (next_advances _ _ _ H) as Hadv.
  destruct (Ascii.eqb_spec c DQUOTE) as [->|Hcq].
  - (* a string literal: it is closed before the carriage return *)
    assert (Hu' : 0 < occurrences DQUOTE u').
    { simpl in Hq. destruct (occurrences DQUOTE u'); [discriminate Hq | lia]. }
    destruct (first_occurrence _ _ Hu') as (body & v & -> & Hbody).
    destruct (next_string_closed self a body (v ++ String CR post) Hlive)
      as (self'' & Hnext & Hpos); [|exact Hcursor|exact Hbody|].
    { rewrite Hsource. str_normal. }
    rewrite Hnext in H. injection H as _ <-.
    exists (len body + 2). split; [lia|]. split.
    + unfold len. simpl. rewrite str_length_app. simpl. lia.
    + replace (String DQUOTE (body ++ String DQUOTE v))
        with ((dquote ++ body ++ dquote) ++ v) by str_normal.
      replace (len body + 2) with (len (dquote ++ body ++ dquote))
        by (unfold len; simpl; rewrite str_length_app; simpl; lia).
      rewrite drop_app.
      simpl in Hq. rewrite occurrences_app, Hbody in Hq. simpl in Hq.
      exact Hq.
  - destruct (occurrences DQUOTE (String c u')) as [|n] eqn:Hocc.
    + (* no quote before the carriage return: it ends the lexeme *)
      assert (Hle : _cur_pos self' <= len a + len (String c u')).
      { apply (next_barrier (len a + len (String c u')) CR self c token self');
          try assumption; try reflexivity.
        - rewrite Hsource.
          replace (a ++ String c u' ++ String CR post)
            with ((a ++ String c u') ++ String CR post) by str_normal.
          replace (len a + len (String c u')) with (len (a ++ String c u'))
            by (unfold len; rewrite str_length_app; reflexivity).
          apply get_at.
        - rewrite Hcursor. simpl. lia. }
      exists (_cur_pos self' - len a). split; [lia|]. split; [lia|].
      pose proof (occurrences_drop DQUOTE (_cur_pos self' - len a) (String c u')) as Hd.
      rewrite Hocc in Hd.
      destruct (occurrences DQUOTE (drop (_cur_pos self' - len a) (String c u')));
        [reflexivity | lia].
    + (* the next quote ends the lexeme *)
      destruct (first_occurrence DQUOTE (String c u')) as (w & v & Hw & Hfree);
        [lia|].
      assert (Hw0 : 0 < len w).
      { destruct w as [|y w]; [|simpl; lia].
        simpl in Hw. injection Hw as Hy _. contradiction. }
      assert (Hle : _cur_pos self' <= len a + len w).
      { apply (next_barrier (len a + len w) DQUOTE self c token self');
          try assumption; try reflexivity.
        - rewrite Hsource, Hw.
          replace (a ++ (w ++ String DQUOTE v) ++ String CR post)
            with ((a ++ w) ++ String DQUOTE (v ++ String CR post)) by str_normal.
          replace (len a + len w) with (len (a ++ w))
            by (unfold len; rewrite str_length_app; reflexivity).
          apply get_at.
        - rewrite Hcursor. lia. }
      exists (_cur_pos self' - len a). split; [lia|].
      assert (Hlen : len (String c u') = len w + S (len v)).
      { rewrite Hw. unfold len. rewrite str_length_app. reflexivity. }
      split; [lia|].
      rewrite <- Hocc in Hq. rewrite Hw in Hq |- *.
      rewrite drop_app_l by lia.
      rewrite occurrences_app in Hq |- *.
      pose proof (occurrences_drop DQUOTE (_cur_pos self' - len a) w) as Hd.
      rewrite Hfree in Hd, Hq.
      replace (occurrences DQUOTE (drop (_cur_pos self' - len a) w)) with 0 by lia.
      exact Hq.
Qed.

End CarriageReturn.

Section BeforeCarriageReturn.

Variable post : string.

(** A live call on a carriage return ends the iteration with the error. *)
Lemma next_on_CR (self : TokenGenerator) :
  _at_end self = false ->
  getitem (_source self) (_cur_pos self) = Some CR ->
  __next__ self = (Raise (UnrecognizedCharacter CR), mark_end self).
Proof.
  intros Hlive Hget. apply next_of_raise; [exact Hlive|].
  unfold cur_char_of. rewrite Hget. apply get_next_token_CR.
Qed.

(** The calls on a source whose carriage return is outside a string
    literal and behind no null character end with an error; the call that
    raises finds the cursor on the carriage return at most, and there the
    error is the one of the unrecognized character. *)
Lemma collect_before_CR (n : nat) :
  forall u a self fuel,
    len u <= n ->
    in_step self ->
    _source self = a ++ u ++ String CR post ->
    _cur_pos self = len a ->
    occurrences NUL u = 0 ->
    Nat.even (occurrences DQUOTE u) = true ->
    calls_left self < fuel ->
    exists tokens e last last',
      collect fuel self = (tokens, Failed e) /\
      reaches self last /\
      __next__ last = (Raise e, last') /\
      _cur_pos last <= len a + len u /\
      (_cur_pos last = len a + len u -> e = UnrecognizedCharacter CR).
Proof.
  assert (Hbase : forall a self fuel,
             in_step self ->
             _source self = a ++ String CR post ->
             _cur_pos self = len a ->
             calls_left self < fuel ->
             exists tokens e last last',
               collect fuel self = (tokens, Failed e) /\
               reaches self last /\
               __next__ last = (Raise e, last') /\
               _cur_pos last <= len a + 0 /\
               (_cur_pos last = len a + 0 -> e = UnrecognizedCharacter CR)).
  { intros a self fuel [Hlive _] Hsource Hcursor Hfuel.
    assert (Hget : getitem (_source self) (_cur_pos self) = Some CR)
      by (rewrite Hsource, Hcursor; apply get_at).
    pose proof (next_on_CR self Hlive Hget) as Hnext.
    exists [], (UnrecognizedCharacter CR), self, (mark_end self).
    split; [|split; [apply reaches_refl|split; [exact Hnext|split; [lia|auto]]]].
    destruct fuel as [|fuel]; [lia|]. simpl. rewrite Hnext. reflexivity. }
  induction n as [|n IH]; intros u a self fuel Hn Hstep Hsource Hcursor Hnul Hq Hfuel.
  - destruct u as [|c u']; [|simpl in Hn; lia].
    apply Hbase; assumption.
  - destruct u as [|c u']; [apply Hbase; assumption|].
    assert (Hcur : cur_char_of self = c).
    { unfold cur_char_of. rewrite Hsource, Hcursor.
      change (String c u' ++ String CR post)
        with (String c (u' ++ String CR post)).
      rewrite get_at. reflexivity. }
    assert (Hc : c <> NUL).
    { apply (get_null_free (String c u') 0 c Hnul). reflexivity. }
    destruct (__next__ self) as [[token|e] self'] eqn:E.
    + destruct (next_in_step _ _ _ Hstep E) as [(_ & _ & Hstep')|(Habs & _)];
        [|congruence].
      destruct (next_before_CR post self a (String c u') token self')
        as (k & Hpos & Hk & Heven); try assumption; [discriminate|].
      pose proof (next_calls_left _ _ _ E) as Hleft.
      destruct (next_effect _ _ _ E) as (Hs & _).
      destruct fuel as [|fuel]; [lia|].
      destruct (IH (drop k (String c u')) (a ++ substring 0 k (String c u'))
                   self' fuel)
        as (tokens & e & last & last' & Hcollect & Hreach & Hraise & Hle & Hat).
      * rewrite length_drop. lia.
      * exact Hstep'.
      * rewrite Hs, Hsource, str_app_assoc.
        rewrite <- (str_app_assoc (substring 0 k (String c u'))).
        rewrite take_drop. reflexivity.
      * unfold len. rewrite str_length_app, length_take by (unfold len in Hk; lia).
        exact Hpos.
      * pose proof (occurrences_drop NUL k (String c u')). lia.
      * exact Heven.
      * lia.
      * assert (Hlen : len (a ++ substring 0 k (String c u'))
                       + len (drop k (String c u'))
                       = len a + len (String c u')).
        { rewrite length_drop. unfold len at 1.
          rewrite str_length_app, length_take by (unfold len in Hk; lia).
          unfold len in *. lia. }
        rewrite Hlen in Hle, Hat.
        exists (token :: tokens), e, last, last'.
        split; [|split; [|split; [exact Hraise|split; [exact Hle|exact Hat]]]].
        -- simpl. rewrite E, Hcollect. reflexivity.
        -- eapply reaches_step; eassumption.
    + destruct (next_in_step _ _ _ Hstep E) as [(_ & He)|(Habs & _)];
        [|congruence].
      exists [], e, self, self'.
      split; [|split; [apply reaches_refl|split; [exact E|split]]].
      * destruct fuel as [|fuel]; [lia|]. simpl. rewrite E.
        destruct e; [contradiction | reflexivity].
      * lia.
      * simpl. lia.
Qed.

(** The same for the iteration over an input. *)
Lemma tokenize_before_CR (input pre : string) :
  _source (__init__ input) = pre ++ String CR post ->
  occurrences NUL pre = 0 ->
  Nat.even (occurrences DQUOTE pre) = true ->
  exists tokens e last last',
    tokenize input = (tokens, Failed e) /\
    reaches (__init__ input) last /\
    __next__ last = (Raise e, last') /\
    _cur_pos last <= len pre /\
    (_cur_pos last = len pre -> e = UnrecognizedCharacter CR).
Proof.
  intros Hsource Hnul Hq. unfold tokenize. cbv zeta.
  apply (collect_before_CR (len pre) pre EmptyString); try assumption.
  - lia.
  - apply init_in_step. rewrite Hsource.
    destruct pre as [|c pre]; [discriminate|].
    apply (get_null_free (String c pre) 0 c Hnul). reflexivity.
  - reflexivity.
  - lia.
Qed.

End BeforeCarriageReturn.

(** Without a slash no comment closes. *)
Lemma no_slash_no_close (s : string) :
  occurrences "/" s = 0 -> has "*/" s = false.
Proof.
  induction s as [|c s IH]; intros H; [reflexivity|].
  simpl in H. destruct (Ascii.eqb_spec c "/") as [|Hc]; [discriminate|].
  change (prefix "*/" (String c s) || has "*/" s = false).
  rewrite (IH H), orb_false_r.
  destruct s as [|d s]; [apply prefix_one|].
  rewrite prefix_two. simpl in H.
  destruct (Ascii.eqb_spec d "/") as [|Hd]; [discriminate|].
  apply andb_false_r.
Qed.

(** An input with a carriage return and without null character, double
    quote and slash does not lex to the end. *)
Lemma tokenize_with_CR (input : string) :
  occurrences NUL input = 0 ->
  occurrences DQUOTE input = 0 ->
  occurrences "/" input = 0 ->
  0 < occurrences CR input ->
  exists tokens e, tokenize input = (tokens, Failed e).
Proof.
  intros Hnul Hq Hslash Hcr.
  assert (Hsource : _source (__init__ input) = _remove_whitespace input).
  { simpl. apply remove_comments_unclosed, no_slash_no_close.
    rewrite remove_whitespace_keeps by reflexivity. exact Hslash. }
  rewrite <- (remove_whitespace_keeps CR eq_refl) in Hcr.
  destruct (first_occurrence _ _ Hcr) as (w & v & Hw & _).
  assert (Hnul' : occurrences NUL w = 0).
  { pose proof (remove_whitespace_keeps NUL eq_refl input) as H.
    rewrite Hw, occurrences_app in H. lia. }
  assert (Hq' : occurrences DQUOTE w = 0).
  { pose proof (remove_whitespace_keeps DQUOTE eq_refl input) as H.
    rewrite Hw, occurrences_app in H. lia. }
  destruct (tokenize_before_CR v input w) as (tokens & e & _ & _ & H & _).
  - rewrite Hsource. exact Hw.
  - exact Hnul'.
  - rewrite Hq'. reflexivity.
  - exists tokens, e. exact H.
Qed.

(** ** The carriage return *)

(** C9, as it is stated, fails on two inputs that hold a carriage return
    and no double quote.  In the first the carriage return stands in a
    comment: comment removal takes it away, and the iteration ends in the
    usual way, with the EOF token and no error.  In the second a null
    character stands before it: the call on the null character gives the
    EOF token, the cursor is then on the carriage return, and the next call
    raises [StopIteration], not the error of the unrecognized character. *)
Lemma C9_counterexample :
  (occurrences CR ("1/*" ++ str1 CR ++ "*/2") = 1 /\
   occurrences DQUOTE ("1/*" ++ str1 CR ++ "*/2") = 0 /\
   occurrences CR (_source (__init__ ("1/*" ++ str1 CR ++ "*/2"))) = 0 /\
   tokenize ("1/*" ++ str1 CR ++ "*/2")
   = ([mkToken "12" NUMBER; EOF_token], Exhausted)) /\
  (occurrences DQUOTE ("a" ++ str1 NUL ++ str1 CR ++ newline) = 0 /\
   (exists self self',
      reaches (__init__ ("a" ++ str1 NUL ++ str1 CR ++ newline)) self /\
      getitem (_source self) (_cur_pos self) = Some CR /\
      __next__ self = (Raise StopIteration, self')) /\
   tokenize ("a" ++ str1 NUL ++ str1 CR ++ newline)
   = ([mkToken "a" IDENT; EOF_token], Exhausted)).
Proof.
  split; [repeat split; vm_compute; reflexivity|].
  split; [reflexivity|]. split; [|vm_compute; reflexivity].
  exists (snd (__next__ (snd (__next__
            (__init__ ("a" ++ str1 NUL ++ str1 CR ++ newline)))))).
  eexists. split; [|split].
  - eapply reaches_step; [vm_compute; reflexivity|].
    eapply reaches_step; [vm_compute; reflexivity|].
    apply reaches_refl.
  - vm_compute. reflexivity.
  - vm_compute. reflexivity.
Qed.

(** C9 (amended): the carriage return is not horizontal whitespace, so
    whitespace removal keeps every carriage return; the newline rule does
    not take it; and a call of [__next__] on a live generator that finds it
    at the cursor raises the error of the unrecognized character.  When the
    source that is left after whitespace and comment removal has a carriage
    return outside a string literal (an even number of double quotes before
    it) with no null character before it, the iteration fails: it ends with
    an error and never with the EOF token; the call that raises is made
    with the cursor on the carriage return at the latest, so no token goes
    past it; and when that call finds the cursor on the carriage return,
    the error is the one of the unrecognized character.  In particular
    every input with a carriage return and without null character, double
    quote and slash fails. *)
Theorem C9_carriage_return_stops_the_lexer :
  is_hspace CR = false /\
  (forall input, occurrences CR (_remove_whitespace input) = occurrences CR input) /\
  (forall self, _get_newlines CR self = (Ok None, self)) /\
  (forall self,
     _at_end self = false ->
     getitem (_source self) (_cur_pos self) = Some CR ->
     __next__ self = (Raise (UnrecognizedCharacter CR), mark_end self)) /\
  (forall input pre post,
     _source (__init__ input) = pre ++ String CR post ->
     occurrences NUL pre = 0 ->
     Nat.even (occurrences DQUOTE pre) = true ->
     exists tokens e last last',
       tokenize input = (tokens, Failed e) /\
       reaches (__init__ input) last /\
       __next__ last = (Raise e, last') /\
       _cur_pos last <= len pre /\
       (_cur_pos last = len pre -> e = UnrecognizedCharacter CR)) /\
  (forall input,
     occurrences NUL input = 0 ->
     occurrences DQUOTE input = 0 ->
     occurrences "/" input = 0 ->
     0 < occurrences CR input ->
     exists tokens e, tokenize input = (tokens, Failed e)) /\
  tokenize ("PRINT" ++ str1 CR ++ newline ++ "GOTO")
  = ([mkToken "PRINT" PRINT], Failed (UnrecognizedCharacter CR)) /\
  tokenize ("1+" ++ str1 CR ++ newline ++ "2")
  = ([mkToken "1" NUMBER; mkToken "+" PLUS], Failed (UnrecognizedCharacter CR)).
Proof.
  split; [reflexivity|].
  split; [intros input; apply remove_whitespace_keeps; reflexivity|].
  split; [intros self; apply get_newlines_none; discriminate|].
  split; [exact next_on_CR|].
  split; [intros input pre post; apply tokenize_before_CR|].
  split; [exact tokenize_with_CR|].
  split; vm_compute; reflexivity.
Qed.

Lemma C9_witness :
  exists tokens e last last',
    tokenize ("1+" ++ str1 CR ++ newline ++ "2") = (tokens, Failed e) /\
    reaches (__init__ ("1+" ++ str1 CR ++ newline ++ "2")) last /\
    __next__ last = (Raise e, last') /\
    _cur_pos last <= 2 /\
    (_cur_pos last = 2 -> e = UnrecognizedCharacter CR).
Proof.
  apply (proj1 (proj2 (proj2 (proj2 (proj2 C9_carriage_return_stops_the_lexer))))
           ("1+" ++ str1 CR ++ newline ++ "2") "1+" (newline ++ "2"));
    reflexivity.
Defined.
